(** * A shallow embedding of [bot.py]: alpha-beta search and board evaluation

    The chess bot of [bot.py] is a class [Bot] holding a [chess.Board], a
    search depth and the colour it plays.  Its methods are embedded here as
    Rocq functions:

    - the board is the object of the external rules library (python-chess);
      everything the bot asks of it is an operation of one of two interfaces,
      [BoardQueries] (what the evaluator reads) and [MoveGen] (what the
      search does to the board);
    - [self.color] is an explicit argument [color];
    - [self.board] is threaded: a method that pushes and pops moves takes the
      board and returns the board it leaves behind;
    - scores are Python numbers built from the integers 1, 3, 5, 9, 100, 2,
      4, 10, 20, 50 and the float 0.5 by addition and subtraction.  All of
      them are multiples of one half, small enough to be exact in a double,
      so a score is represented by the integer number of HALF points it
      denotes: [pts n] is the Python number [n], [half] is [0.5].
      [float('inf')] and [float('-inf')] are the two extra elements of
      [score];
    - [depth] is a Python integer, hence a [Z]; the recursion of [minimax]
      is not structural on it (nothing stops a negative depth), so the
      embedding recurses on a separate [fuel] counter and returns [None]
      when the counter runs out. *)

From Stdlib Require Import String Ascii ZArith Arith Bool List Lia ZifyBool.
Import ListNotations.
Local Open Scope Z_scope.
Local Set Warnings "-register-all".

(** ** Squares, colours and pieces, as python-chess numbers them *)

Definition Square := nat.

Definition E1 : Square := 4%nat.
Definition D4 : Square := 27%nat.
Definition E4 : Square := 28%nat.
Definition D5 : Square := 35%nat.
Definition E5 : Square := 36%nat.
Definition E8 : Square := 60%nat.

(** [chess.SQUARES]: the squares 0 (a1) to 63 (h8). *)
Definition SQUARES : list Square := seq 0 64.

(** [chess.WHITE] is [True], [chess.BLACK] is [False]; [not self.color] is
    [negb color]. *)
Definition Color := bool.
Definition WHITE : Color := true.
Definition BLACK : Color := false.

Inductive PieceType := PAWN | KNIGHT | BISHOP | ROOK | QUEEN | KING.

Record Piece := mkPiece { piece_type : PieceType; piece_color : Color }.

(** [piece.symbol().lower()] *)
Definition symbol_lower (piece : Piece) : ascii :=
  match piece_type piece with
  | PAWN => "p" | KNIGHT => "n" | BISHOP => "b"
  | ROOK => "r" | QUEEN => "q" | KING => "k"
  end%char.

(** ** Scores *)

Definition pts (n : Z) : Z := 2 * n.
Definition half : Z := 1.

Inductive score := NegInf | Fin (v : Z) | PosInf.

Definition score_ltb (x y : score) : bool :=
  match x, y with
  | NegInf, NegInf => false
  | NegInf, _ => true
  | Fin _, NegInf => false
  | Fin a, Fin b => a <? b
  | Fin _, PosInf => true
  | PosInf, _ => false
  end.

Definition score_leb (x y : score) : bool := negb (score_ltb y x).

(** Python's [max(a, b)] returns [b] only when [b > a], and [min(a, b)]
    returns [b] only when [b < a]. *)
Definition score_max (a b : score) : score := if score_ltb a b then b else a.
Definition score_min (a b : score) : score := if score_ltb b a then b else a.

Definition is_finite (s : score) : bool :=
  match s with Fin _ => true | _ => false end.

(** ** The rules library, as the bot uses it *)

(** The read-only queries of [chess.Board] made by the evaluator.  Square
    sets are lists in ascending order. *)
Class BoardQueries (Board : Type) := {
  piece_at : Board -> Square -> option Piece;
  king : Board -> Color -> option Square;
  has_kingside_castling_rights : Board -> Color -> bool;
  has_queenside_castling_rights : Board -> Color -> bool;
  is_checkmate : Board -> bool;
  attacks : Board -> Square -> list Square;
  pieces : Board -> PieceType -> Color -> list Square;
  attackers : Board -> Color -> Square -> list Square
}.

(** Move generation and the move stack.  [pop] of an empty stack raises in
    python-chess; the search pops only what it pushed. *)
Class MoveGen (Board Move : Type) := {
  legal_moves : Board -> list Move;
  push : Board -> Move -> Board;
  pop : Board -> Board;
  is_game_over : Board -> bool;
  uci : Move -> string
}.

(** ** The evaluator *)

Section Evaluator.
Context {Board : Type} {Q : BoardQueries Board}.

(** [square in [chess.D4, chess.E4, chess.D5, chess.E5]] *)
Definition in_center (square : Square) : bool :=
  existsb (Nat.eqb square) [D4; E4; D5; E5].

Definition get_piece_value (color : Color) (piece : Piece) (square : Square) : Z :=
  let value := 0 in
  let value :=
    if Ascii.eqb (symbol_lower piece) "p" then pts 1
    else if Ascii.eqb (symbol_lower piece) "r" then pts 5
    else if Ascii.eqb (symbol_lower piece) "n" then pts 3
    else if Ascii.eqb (symbol_lower piece) "b" then pts 3
    else if Ascii.eqb (symbol_lower piece) "q" then pts 9
    else if Ascii.eqb (symbol_lower piece) "k" then pts 100
    else value in
  if Bool.eqb (piece_color piece) color then
    if in_center square then value + half else value
  else
    if in_center square then value - half else value.

Definition get_king_safety_bonus (color : Color) (b : Board) (king_square : Square) : Z :=
  let bonus := 0 in
  let bonus :=
    if has_kingside_castling_rights b color && Nat.eqb king_square E1
    then bonus + pts 2 else bonus in
  let bonus :=
    if has_queenside_castling_rights b color && Nat.eqb king_square E1
    then bonus + pts 2 else bonus in
  bonus.

Definition get_king_safety_penalty (color : Color) (b : Board) (king_square : Square) : Z :=
  let penalty := 0 in
  let penalty :=
    if negb (has_kingside_castling_rights b (negb color)) && Nat.eqb king_square E8
    then penalty - pts 2 else penalty in
  let penalty :=
    if negb (has_queenside_castling_rights b (negb color)) && Nat.eqb king_square E8
    then penalty - pts 2 else penalty in
  penalty.

(** The argument is not used by the source either. *)
Definition is_king_exposed (color : Color) (b : Board) (king_square : option Square) : bool :=
  negb (has_kingside_castling_rights b (negb color))
  && negb (has_queenside_castling_rights b (negb color)).

Definition get_attack_against_king_bonus (color : Color) (b : Board) : Z :=
  let bonus := 0 in
  let opponent_king_square := king b (negb color) in
  let bonus :=
    if is_king_exposed color b opponent_king_square then bonus + pts 10 else bonus in
  let bonus :=
    match opponent_king_square with
    | Some square => if in_center square then bonus + pts 5 else bonus
    | None => bonus
    end in
  bonus.

(** [self.board.attacks(None)] raises a [TypeError]: the result is [None]
    when the opponent has no king. *)
Definition get_checkmate_threat_bonus (color : Color) (b : Board) : option Z :=
  let bonus := 0 in
  let bonus := if is_checkmate b then bonus + pts 50 else bonus in
  match king b (negb color) with
  | None => None
  | Some opponent_king_square =>
      let escape_squares := attacks b opponent_king_square in
      Some (if (length escape_squares <=? 2)%nat then bonus + pts 20 else bonus)
  end.

(** One of the four loops of [get_protect_key_pieces_bonus]: [delta] is
    added for every square of [squares] that [by_color] does not attack. *)
Definition unattacked_bonus (b : Board) (by_color : Color) (delta : Z)
    (squares : list Square) (bonus : Z) : Z :=
  fold_left
    (fun bonus square =>
       if (length (attackers b by_color square) =? 0)%nat then bonus + delta else bonus)
    squares bonus.

Definition get_protect_key_pieces_bonus (color : Color) (b : Board) : Z :=
  let bonus := 0 in
  let my_queen_squares := pieces b QUEEN color in
  let bonus :=
    match my_queen_squares with
    | my_queen_square :: _ =>
        let attacks_on_queen := length (attackers b (negb color) my_queen_square) in
        if (attacks_on_queen =? 0)%nat then bonus + pts 4 else bonus
    | [] => bonus
    end in
  let opponent_queen_squares := pieces b QUEEN (negb color) in
  let bonus :=
    match opponent_queen_squares with
    | opponent_queen_square :: _ =>
        let attacks_on_queen := length (attackers b color opponent_queen_square) in
        if (attacks_on_queen =? 0)%nat then bonus - pts 2 else bonus
    | [] => bonus
    end in
  let bonus := unattacked_bonus b (negb color) (pts 2) (pieces b ROOK color) bonus in
  let bonus := unattacked_bonus b color (- pts 1) (pieces b ROOK (negb color)) bonus in
  let bonus := unattacked_bonus b (negb color) (pts 1) (pieces b KNIGHT color) bonus in
  let bonus := unattacked_bonus b (negb color) (pts 1) (pieces b BISHOP color) bonus in
  bonus.

(** The first loop of [evaluate_board] (lines 135-143): the material term
    together with the centre adjustment made by [get_piece_value]. *)
Definition material_score (color : Color) (b : Board) : Z :=
  fold_left
    (fun score square =>
       match piece_at b square with
       | Some piece =>
           if Bool.eqb (piece_color piece) color
           then score + get_piece_value color piece square
           else score - get_piece_value color piece square
       | None => score
       end)
    SQUARES 0.

Definition evaluate_board (color : Color) (b : Board) : option Z :=
  let score := material_score color b in
  match king b color, king b (negb color) with
  | Some my_king_square, Some opponent_king_square =>
      let score := score + get_king_safety_bonus color b my_king_square in
      match get_checkmate_threat_bonus color b with
      | None => None
      | Some bonus =>
          let score := score + bonus in
          let score := score + get_attack_against_king_bonus color b in
          let score := score - get_king_safety_penalty color b opponent_king_square in
          let score := score + get_protect_key_pieces_bonus color b in
          Some score
      end
  | _, _ => Some score
  end.

(** [evaluate_board] with line 152, the subtraction of
    [get_king_safety_penalty], left out: the sum of the other terms. *)
Definition evaluate_board_without_penalty (color : Color) (b : Board) : option Z :=
  let score := material_score color b in
  match king b color, king b (negb color) with
  | Some my_king_square, Some opponent_king_square =>
      let score := score + get_king_safety_bonus color b my_king_square in
      match get_checkmate_threat_bonus color b with
      | None => None
      | Some bonus =>
          let score := score + bonus in
          let score := score + get_attack_against_king_bonus color b in
          let score := score + get_protect_key_pieces_bonus color b in
          Some score
      end
  | _, _ => Some score
  end.

(** The square a king starts on. *)
Definition home_square (c : Color) : Square := if c then E1 else E8.

Definition indicator (condition : bool) : Z := if condition then 1 else 0.

(** The opponent has lost the right to castle on a side and its king is on
    the square [home]. *)
Definition lost_kingside_at (color : Color) (b : Board) (home king_square : Square) : bool :=
  negb (has_kingside_castling_rights b (negb color)) && Nat.eqb king_square home.
Definition lost_queenside_at (color : Color) (b : Board) (home king_square : Square) : bool :=
  negb (has_queenside_castling_rights b (negb color)) && Nat.eqb king_square home.

(** "The king-safety-penalty term lowers the evaluation by 2 for each side
    on which the opponent has lost its rights, its king being at home." *)
Definition penalty_lowers_evaluation (color : Color) (b : Board) : Prop :=
  forall my_king_square opponent_king_square,
    king b color = Some my_king_square ->
    king b (negb color) = Some opponent_king_square ->
    exists rest,
      evaluate_board_without_penalty color b = Some rest /\
      evaluate_board color b =
        Some (rest
              - pts 2 * indicator (lost_kingside_at color b (home_square (negb color))
                                                    opponent_king_square)
              - pts 2 * indicator (lost_queenside_at color b (home_square (negb color))
                                                     opponent_king_square)).

(** The number of pieces on the four central squares. *)
Definition central_pieces (b : Board) : Z :=
  Z.of_nat
    (length (filter (fun square =>
                       match piece_at b square with
                       | Some _ => in_center square
                       | None => false
                       end) SQUARES)).

End Evaluator.

(** ** The search *)

Section Searcher.
Context {Board Move : Type} {Q : BoardQueries Board} {G : MoveGen Board Move}.

(** What a call of [minimax] produces: the pair [(best_eval, best_move)]
    it returns and the board it leaves in [self.board]. *)
Definition search_result : Type := score * option Move * Board.

(** The [for] loop of the maximizing branch (lines 43-54), started at
    [best_eval], [best_move], [alpha] and the board [b].  [recurse] is the
    recursive call [self.minimax(depth - 1, alpha, beta, False)], as a
    function of the current [alpha] and of the board after the push. *)
Fixpoint maximizing_loop (recurse : score -> Board -> option search_result)
    (moves : list Move) (best_eval : score) (best_move : option Move)
    (alpha beta : score) (b : Board) : option search_result :=
  match moves with
  | [] => Some (best_eval, best_move, b)
  | move :: rest =>
      let b := push b move in
      match recurse alpha b with
      | None => None
      | Some (evaluation, _, b) =>
          let b := pop b in
          let '(best_eval, best_move) :=
            if score_ltb best_eval evaluation
            then (evaluation, Some move) else (best_eval, best_move) in
          let alpha := score_max alpha best_eval in
          if score_leb beta alpha then Some (best_eval, best_move, b)
          else maximizing_loop recurse rest best_eval best_move alpha beta b
      end
  end.

(** The [for] loop of the minimizing branch (lines 57-68); [recurse] is
    [self.minimax(depth - 1, alpha, beta, True)] as a function of the
    current [beta]. *)
Fixpoint minimizing_loop (recurse : score -> Board -> option search_result)
    (moves : list Move) (best_eval : score) (best_move : option Move)
    (alpha beta : score) (b : Board) : option search_result :=
  match moves with
  | [] => Some (best_eval, best_move, b)
  | move :: rest =>
      let b := push b move in
      match recurse beta b with
      | None => None
      | Some (evaluation, _, b) =>
          let b := pop b in
          let '(best_eval, best_move) :=
            if score_ltb evaluation best_eval
            then (evaluation, Some move) else (best_eval, best_move) in
          let beta := score_min beta best_eval in
          if score_leb beta alpha then Some (best_eval, best_move, b)
          else minimizing_loop recurse rest best_eval best_move alpha beta b
      end
  end.

(** [Bot.minimax].  [None] is the absence of a result: the fuel ran out,
    or [evaluate_board] raised. *)
Fixpoint minimax (fuel : nat) (color : Color) (depth : Z) (alpha beta : score)
    (maximizing_player : bool) (b : Board) : option search_result :=
  match fuel with
  | O => None
  | S fuel =>
      if (depth =? 0) || is_game_over b then
        match evaluate_board color b with
        | Some v => Some (Fin v, None, b)
        | None => None
        end
      else
        let legal_moves := legal_moves b in
        let best_move := None in
        if maximizing_player then
          let best_eval := NegInf in
          maximizing_loop
            (fun alpha b => minimax fuel color (depth - 1) alpha beta false b)
            legal_moves best_eval best_move alpha beta b
        else
          let best_eval := PosInf in
          minimizing_loop
            (fun beta b => minimax fuel color (depth - 1) alpha beta true b)
            legal_moves best_eval best_move alpha beta b
  end.

(** [self.depth], as [Bot.__init__] sets it. *)
Definition default_depth : Z := 3.

(** The values a method of the bot hands back to its caller, as far as
    their shape matters: [None], a [chess.Move], a number, a pair, a
    string. *)
Inductive PyObject :=
| PyNone
| PyMove (m : Move)
| PyNumber (s : score)
| PyTuple (x y : PyObject)
| PyStr (s : string).

Definition py_move (m : option Move) : PyObject :=
  match m with Some m => PyMove m | None => PyNone end.

Definition is_move_or_none (v : PyObject) : bool :=
  match v with PyNone | PyMove _ => true | _ => false end.

(** [str(move)]: the UCI notation of a move, and ["None"] for [None]. *)
Definition str (m : option Move) : string :=
  match m with Some m => uci m | None => "None"%string end.

(** [Bot.get_best_move]: the whole result of [minimax] is bound to
    [best_move] and returned. *)
Definition get_best_move (fuel : nat) (color : Color) (self_depth : Z) (b : Board)
    : option (PyObject * Board) :=
  match minimax fuel color self_depth NegInf PosInf true b with
  | Some (best_eval, best_move, b) =>
      Some (PyTuple (PyNumber best_eval) (py_move best_move), b)
  | None => None
  end.

(** [Bot.next_move] (the [print] is left out). *)
Definition next_move (fuel : nat) (color : Color) (self_depth : Z) (b : Board)
    : option (PyObject * Board) :=
  match minimax fuel color self_depth NegInf PosInf true b with
  | Some (eval, move, b) => Some (PyStr (str move), b)
  | None => None
  end.

(** *** The unpruned search the pruned one is compared with

    Plain minimax over the same tree: the value of a position is its
    evaluation at depth 0 or when the game is over, and otherwise the
    largest (maximizing) or smallest (minimizing) of the values of the
    positions its legal moves lead to, every one of them searched.  With
    no legal move the value is the seed of [minimax], minus or plus
    infinity. *)
Fixpoint largest (values : list (option score)) : option score :=
  match values with
  | [] => Some NegInf
  | v :: values =>
      match v, largest values with
      | Some v, Some w => Some (score_max v w)
      | _, _ => None
      end
  end.

Fixpoint smallest (values : list (option score)) : option score :=
  match values with
  | [] => Some PosInf
  | v :: values =>
      match v, smallest values with
      | Some v, Some w => Some (score_min v w)
      | _, _ => None
      end
  end.

Fixpoint full_minimax (fuel : nat) (color : Color) (depth : Z)
    (maximizing_player : bool) (b : Board) : option score :=
  match fuel with
  | O => None
  | S fuel =>
      if (depth =? 0) || is_game_over b then
        option_map Fin (evaluate_board color b)
      else if maximizing_player then
        largest
          (map (fun move => full_minimax fuel color (depth - 1) false (push b move))
               (legal_moves b))
      else
        smallest
          (map (fun move => full_minimax fuel color (depth - 1) true (push b move))
               (legal_moves b))
  end.

(** No dead end where a search of [depth] plies from [b] goes: every
    position it expands (not at depth 0, not game over) has a legal move. *)
Fixpoint no_dead_end (fuel : nat) (depth : Z) (b : Board) : bool :=
  match fuel with
  | O => true
  | S fuel =>
      if (depth =? 0) || is_game_over b then true
      else
        match legal_moves b with
        | [] => false
        | moves => forallb (fun move => no_dead_end fuel (depth - 1) (push b move)) moves
        end
  end.

(** The window property of a search result [v] for a position of plain
    minimax value [m]: a result below [beta] is at least the value, a
    result above [alpha] is at most the value (so a result strictly inside
    the window is the value). *)
Definition within (alpha beta v m : score) : Prop :=
  (score_ltb v beta = true -> score_leb m v = true) /\
  (score_ltb alpha v = true -> score_leb v m = true).

(** The same rules library with another move generator and another move
    stack; what it reports as game over is kept. *)
Definition with_moves (legal_moves' : Board -> list Move)
    (push' : Board -> Move -> Board) (pop' : Board -> Board) : MoveGen Board Move :=
  {| legal_moves := legal_moves'; push := push'; pop := pop';
     is_game_over := is_game_over; uci := uci |}.

End Searcher.

(** ** Concrete boards *)

(** A position as python-chess describes it to the evaluator: the piece on
    each occupied square (in ascending order of the squares), the castling
    rights of each colour, whether the side to move is checkmated, and the
    attack set of the piece on each square (empty for an empty square). *)
Record Snapshot := mkSnapshot {
  sn_placement : list (Square * Piece);
  sn_kingside : Color -> bool;
  sn_queenside : Color -> bool;
  sn_checkmate : bool;
  sn_attacks : Square -> list Square
}.

Definition sn_piece_at (s : Snapshot) (square : Square) : option Piece :=
  option_map snd (find (fun entry => Nat.eqb (fst entry) square) (sn_placement s)).

Definition piece_type_eqb (t t' : PieceType) : bool :=
  match t, t' with
  | PAWN, PAWN | KNIGHT, KNIGHT | BISHOP, BISHOP
  | ROOK, ROOK | QUEEN, QUEEN | KING, KING => true
  | _, _ => false
  end.

Definition is_piece (t : PieceType) (c : Color) (piece : Piece) : bool :=
  piece_type_eqb (piece_type piece) t && Bool.eqb (piece_color piece) c.

(** [Board.pieces]: the squares holding a piece of the given type and colour. *)
Definition sn_pieces (s : Snapshot) (t : PieceType) (c : Color) : list Square :=
  map fst (filter (fun entry => is_piece t c (snd entry)) (sn_placement s)).

(** [Board.king]: the highest square holding a king of the colour. *)
Definition sn_king (s : Snapshot) (c : Color) : option Square :=
  last (map Some (sn_pieces s KING c)) None.

(** [Board.attackers]: the squares of the pieces of a colour whose attack set
    contains the square. *)
Definition sn_attackers (s : Snapshot) (c : Color) (square : Square) : list Square :=
  map fst
    (filter
       (fun entry =>
          Bool.eqb (piece_color (snd entry)) c
          && existsb (Nat.eqb square) (sn_attacks s (fst entry)))
       (sn_placement s)).

#[global] Instance snapshot_queries : BoardQueries Snapshot := {
  piece_at := sn_piece_at;
  king := sn_king;
  has_kingside_castling_rights := sn_kingside;
  has_queenside_castling_rights := sn_queenside;
  is_checkmate := sn_checkmate;
  attacks := fun s square => sn_attacks s square;
  pieces := sn_pieces;
  attackers := sn_attackers
}.

(** The attack set of a king, for the squares used below. *)
Definition king_attacks_E1 : list Square := [3; 5; 11; 12; 13]%nat.
Definition king_attacks_E8 : list Square := [51; 52; 53; 59; 61]%nat.

(** [4k3/8/8/8/8/8/8/4K3 w - - 0 1]: the two kings on their home squares,
    no castling rights. *)
Definition kings_only : Snapshot := {|
  sn_placement := [(E1, mkPiece KING WHITE); (E8, mkPiece KING BLACK)];
  sn_kingside := fun _ => false;
  sn_queenside := fun _ => false;
  sn_checkmate := false;
  sn_attacks := fun square =>
    if Nat.eqb square E1 then king_attacks_E1
    else if Nat.eqb square E8 then king_attacks_E8
    else []
|}.

(** [4k3/8/8/8/4P3/8/8/4K3 w - - 0 1]: the two kings and a white pawn on e4. *)
Definition pawn_on_e4 : Snapshot := {|
  sn_placement :=
    [(E1, mkPiece KING WHITE); (E4, mkPiece PAWN WHITE); (E8, mkPiece KING BLACK)];
  sn_kingside := fun _ => false;
  sn_queenside := fun _ => false;
  sn_checkmate := false;
  sn_attacks := fun square =>
    if Nat.eqb square E1 then king_attacks_E1
    else if Nat.eqb square E4 then [D5; 37]%nat
    else if Nat.eqb square E8 then king_attacks_E8
    else []
|}.

(** [r3k2r/8/8/8/8/8/8/4K3 w kq - 0 1]: black may still castle on both
    sides, white has a bare king. *)
Definition black_can_castle : Snapshot := {|
  sn_placement :=
    [(E1, mkPiece KING WHITE); (56, mkPiece ROOK BLACK);
     (E8, mkPiece KING BLACK); (63, mkPiece ROOK BLACK)]%nat;
  sn_kingside := fun c => negb c;
  sn_queenside := fun c => negb c;
  sn_checkmate := false;
  sn_attacks := fun square =>
    if Nat.eqb square E1 then king_attacks_E1
    else if Nat.eqb square 56 then [0; 8; 16; 24; 32; 40; 48; 57; 58; 59; 60]%nat
    else if Nat.eqb square E8 then king_attacks_E8
    else if Nat.eqb square 63 then [7; 15; 23; 31; 39; 47; 55; 60; 61; 62]%nat
    else []
|}.

(** The same with colours exchanged,
    [4k3/8/8/8/8/8/8/R3K2R w KQ - 0 1]. *)
Definition white_can_castle : Snapshot := {|
  sn_placement :=
    [(0, mkPiece ROOK WHITE); (E1, mkPiece KING WHITE);
     (7, mkPiece ROOK WHITE); (E8, mkPiece KING BLACK)]%nat;
  sn_kingside := fun c => c;
  sn_queenside := fun c => c;
  sn_checkmate := false;
  sn_attacks := fun square =>
    if Nat.eqb square 0 then [1; 2; 3; 4; 8; 16; 24; 32; 40; 48; 56]%nat
    else if Nat.eqb square E1 then king_attacks_E1
    else if Nat.eqb square 7 then [4; 5; 6; 15; 23; 31; 39; 47; 55; 63]%nat
    else if Nat.eqb square E8 then king_attacks_E8
    else []
|}.

(** A kingless position of [white] white pawns on the second rank and
    [black] black pawns on the seventh (at most eight of each): its
    evaluation by white is the difference of the two numbers.  With no king
    and no piece on the board the evaluator asks for no attack set, and none
    is listed. *)
Definition pawns (white black : nat) : Snapshot := {|
  sn_placement :=
    map (fun i => ((8 + i)%nat, mkPiece PAWN WHITE)) (seq 0 white)
    ++ map (fun i => ((48 + i)%nat, mkPiece PAWN BLACK)) (seq 0 black);
  sn_kingside := fun _ => false;
  sn_queenside := fun _ => false;
  sn_checkmate := false;
  sn_attacks := fun _ => []
|}.

(** *** A game given by its tree

    A board whose positions, legal moves and successors are read off an
    explicit finite tree; a move is the index of a child.  The board keeps
    the stack of the positions it went through, as [chess.Board] does:
    [push] saves the current one, [pop] restores the last saved. *)
Inductive GameTree :=
  GameNode (position : Snapshot) (over : bool) (children : list GameTree).

Definition position_of (t : GameTree) : Snapshot :=
  match t with GameNode position _ _ => position end.
Definition over_of (t : GameTree) : bool :=
  match t with GameNode _ over _ => over end.
Definition children_of (t : GameTree) : list GameTree :=
  match t with GameNode _ _ children => children end.

Record TreeBoard := mkTreeBoard { current : GameTree; saved : list GameTree }.

Definition tree_push (b : TreeBoard) (move : nat) : TreeBoard :=
  {| current := nth move (children_of (current b)) (current b);
     saved := current b :: saved b |}.

(** With nothing saved python-chess raises an [IndexError]; the board is
    left as it is here. *)
Definition tree_pop (b : TreeBoard) : TreeBoard :=
  match saved b with
  | previous :: rest => {| current := previous; saved := rest |}
  | [] => b
  end.

#[global] Instance tree_queries : BoardQueries TreeBoard := {
  piece_at := fun b => sn_piece_at (position_of (current b));
  king := fun b => sn_king (position_of (current b));
  has_kingside_castling_rights := fun b => sn_kingside (position_of (current b));
  has_queenside_castling_rights := fun b => sn_queenside (position_of (current b));
  is_checkmate := fun b => sn_checkmate (position_of (current b));
  attacks := fun b => sn_attacks (position_of (current b));
  pieces := fun b => sn_pieces (position_of (current b));
  attackers := fun b => sn_attackers (position_of (current b))
}.

#[global] Instance tree_moves : MoveGen TreeBoard nat := {
  legal_moves := fun b => seq 0 (length (children_of (current b)));
  push := tree_push;
  pop := tree_pop;
  is_game_over := fun b => over_of (current b);
  uci := fun move => String (ascii_of_nat (97 + move)) EmptyString
}.

Definition start_at (t : GameTree) : TreeBoard := {| current := t; saved := [] |}.

(** A position where play stops here (depth 0 or game over). *)
Definition leaf (white black : nat) (over : bool) : GameTree :=
  GameNode (pawns white black) over [].

(** Two plies: the first reply to the second move refutes it, so the
    pruned search never looks at the other reply. *)
Definition two_plies : GameTree :=
  GameNode (pawns 4 4) false
    [ GameNode (pawns 4 4) false [leaf 7 4 false; leaf 8 3 false];
      GameNode (pawns 4 4) false [leaf 6 4 false; leaf 0 8 false] ].

(** A position with one legal move, which leads to a position that is not
    game over and has no legal move. *)
Definition dead_end : GameTree := GameNode (pawns 4 4) false [].
Definition before_dead_end : GameTree := GameNode (pawns 4 4) false [dead_end].

(** [4R1k1/5ppp/8/8/8/8/8/6K1 b - - 0 1]: black is checkmated on the back
    rank. *)
Definition back_rank_mate : Snapshot := {|
  sn_placement :=
    [(6, mkPiece KING WHITE); (53, mkPiece PAWN BLACK); (54, mkPiece PAWN BLACK);
     (55, mkPiece PAWN BLACK); (E8, mkPiece ROOK WHITE); (62, mkPiece KING BLACK)]%nat;
  sn_kingside := fun _ => false;
  sn_queenside := fun _ => false;
  sn_checkmate := true;
  sn_attacks := fun square =>
    if Nat.eqb square 6 then [5; 7; 13; 14; 15]%nat
    else if Nat.eqb square 53 then [44; 46]%nat
    else if Nat.eqb square 54 then [45; 47]%nat
    else if Nat.eqb square 55 then [46]%nat
    else if Nat.eqb square E8 then [4; 12; 20; 28; 36; 44; 52; 56; 57; 58; 59; 61; 62]%nat
    else if Nat.eqb square 62 then [53; 54; 55; 61; 63]%nat
    else []
|}.

(** The finished game: no legal move, game over. *)
Definition mated : GameTree := GameNode back_rank_mate true [].

(** One move left before the game is over. *)
Definition one_move_left : GameTree := GameNode (pawns 4 4) false [leaf 5 4 true].

(** The same game trees under the rule of python-chess that a position
    without a legal move is game over (checkmate or stalemate): the game is
    over at a node marked so and at a node without children. *)
Definition ruled_tree_moves : MoveGen TreeBoard nat := {|
  legal_moves := fun b => seq 0 (length (children_of (current b)));
  push := tree_push;
  pop := tree_pop;
  is_game_over := fun b =>
    over_of (current b)
    || match children_of (current b) with [] => true | _ :: _ => false end;
  uci := fun move => String (ascii_of_nat (97 + move)) EmptyString
|}.

(** Three moves, worth 1, 2 and 2 after one ply. *)
Definition tied_moves : GameTree :=
  GameNode (pawns 4 4) false [leaf 5 4 false; leaf 6 4 false; leaf 6 4 false].

(** ** Notions used to state further properties *)

Section EvaluatorNotions.
Context {Board : Type} {Q : BoardQueries Board}.

(** The value [get_piece_value] starts from, before the centre adjustment. *)
Definition piece_points (piece : Piece) : Z :=
  match piece_type piece with
  | PAWN => pts 1
  | KNIGHT => pts 3
  | BISHOP => pts 3
  | ROOK => pts 5
  | QUEEN => pts 9
  | KING => pts 100
  end.

(** Material in the usual sense: the points of the pieces of [color] minus
    the points of the other pieces. *)
Definition material_balance (color : Color) (b : Board) : Z :=
  fold_right Z.add 0
    (map (fun square =>
            match piece_at b square with
            | Some piece =>
                if Bool.eqb (piece_color piece) color
                then piece_points piece else - piece_points piece
            | None => 0
            end) SQUARES).

(** How many of the squares are attacked by no piece of [by_color]. *)
Definition unattacked (b : Board) (by_color : Color) (squares : list Square) : Z :=
  Z.of_nat
    (length (filter (fun square => (length (attackers b by_color square) =? 0)%nat)
                    squares)).

End EvaluatorNotions.

Section SearcherNotions.
Context {Board Move : Type} {Q : BoardQueries Board} {G : MoveGen Board Move}.

(** The board after the moves of [line] have been pushed, one after the
    other. *)
Definition play (b : Board) (line : list Move) : Board := fold_left push line b.

(** Each move of the line is legal in the position it is played in. *)
Fixpoint legal_line (b : Board) (line : list Move) : Prop :=
  match line with
  | [] => True
  | move :: rest => In move (legal_moves b) /\ legal_line (push b move) rest
  end.

(** What the loops of [minimax] keep true of [best_eval] and [best_move]
    at the position [b]: a finite best score comes with the move it was
    found for and with a legal line behind that move, of at most [bound]
    moves when [bound] is not negative, at the end of which the evaluation
    is that score. *)
Definition line_found (color : Color) (bound : Z) (b : Board)
    (best_eval : score) (best_move : option Move) : Prop :=
  forall z, best_eval = Fin z ->
    exists move line,
      best_move = Some move /\ In move (legal_moves b) /\
      legal_line (push b move) line /\
      evaluate_board color (play (push b move) line) = Some z /\
      (0 <= bound -> Z.of_nat (length line) <= bound).

(** What the maximizing loop keeps true at the root, [value] being the
    plain minimax value of a position: no move tried so far is worth more
    than [best_eval], and [best_move] is the first of them worth
    [best_eval]. *)
Definition first_best (value : Board -> option score) (b : Board) (tried : list Move)
    (best_eval : score) (best_move : option Move) : Prop :=
  (forall m', In m' tried ->
     exists x, value (push b m') = Some x /\ score_leb x best_eval = true) /\
  match best_move with
  | Some m =>
      exists before after,
        tried = before ++ m :: after /\
        value (push b m) = Some best_eval /\
        forall m', In m' before ->
          exists x, value (push b m') = Some x /\ score_ltb x best_eval = true
  | None => best_eval = NegInf
  end.

End SearcherNotions.

(** * Properties *)

(** ** The order on scores *)

Ltac score_simpl := cbn [score_ltb negb is_finite] in *.

Ltac score_cases :=
  unfold within, score_leb, score_max, score_min in *;
  repeat (match goal with s : score |- _ => destruct s end;
          score_simpl; try discriminate);
  repeat match goal with
         | |- context [if ?c then _ else _] => destruct c eqn:?
         | H : context [if ?c then _ else _] |- _ => destruct c eqn:?
         end;
  score_simpl;
  try discriminate; try congruence; try lia;
  try (repeat split; intros; first [ lia | f_equal; lia ]).

Lemma score_ltb_irrefl (x : score) : score_ltb x x = false.
Proof. score_cases. Qed.

Lemma score_leb_refl (x : score) : score_leb x x = true.
Proof. score_cases. Qed.

Lemma NegInf_least (x : score) : score_leb NegInf x = true.
Proof. score_cases. Qed.

Lemma PosInf_greatest (x : score) : score_leb x PosInf = true.
Proof. score_cases. Qed.

(** ** The evaluator never raises *)

Section EvaluatorFacts.
Context {Board : Type} {Q : BoardQueries Board}.

Lemma evaluate_board_returns (color : Color) (b : Board) :
  exists v, evaluate_board color b = Some v.
Proof.
  unfold evaluate_board, get_checkmate_threat_bonus.
  destruct (king b color); [ | eexists; reflexivity ].
  destruct (king b (negb color)); eexists; reflexivity.
Qed.

Lemma evaluate_board_penalty (color : Color) (b : Board) (my opp : Square) :
  king b color = Some my ->
  king b (negb color) = Some opp ->
  exists rest,
    evaluate_board_without_penalty color b = Some rest /\
    evaluate_board color b = Some (rest - get_king_safety_penalty color b opp).
Proof.
  intros Hmy Hopp.
  unfold evaluate_board, evaluate_board_without_penalty, get_checkmate_threat_bonus.
  rewrite Hmy, Hopp.
  eexists; split; [ reflexivity | f_equal; lia ].
Qed.

End EvaluatorFacts.

(** ** The search: results, the board, the move *)

Section SearchFacts.
Context {Board Move : Type} {Q : BoardQueries Board} {G : MoveGen Board Move}.

(** *** Enough fuel gives a result *)

Lemma maximizing_loop_returns (recurse : score -> Board -> option (@search_result Board Move)) :
  (forall a bd, exists r, recurse a bd = Some r) ->
  forall moves best_eval best_move alpha beta b,
  exists r, maximizing_loop recurse moves best_eval best_move alpha beta b = Some r.
Proof.
  intros Hrec moves.
  induction moves as [ | move rest IH ]; intros best_eval best_move alpha beta b;
    cbn [maximizing_loop].
  - eexists; reflexivity.
  - destruct (Hrec alpha (push b move)) as [[[e mv] bd] ->].
    destruct (score_ltb best_eval e);
      match goal with |- context [if ?c then _ else _] => destruct c end;
      solve [ eexists; reflexivity | apply IH ].
Qed.

Lemma minimizing_loop_returns (recurse : score -> Board -> option (@search_result Board Move)) :
  (forall a bd, exists r, recurse a bd = Some r) ->
  forall moves best_eval best_move alpha beta b,
  exists r, minimizing_loop recurse moves best_eval best_move alpha beta b = Some r.
Proof.
  intros Hrec moves.
  induction moves as [ | move rest IH ]; intros best_eval best_move alpha beta b;
    cbn [minimizing_loop].
  - eexists; reflexivity.
  - destruct (Hrec beta (push b move)) as [[[e mv] bd] ->].
    destruct (score_ltb e best_eval);
      match goal with |- context [if ?c then _ else _] => destruct c end;
      solve [ eexists; reflexivity | apply IH ].
Qed.

Lemma minimax_returns (fuel : nat) :
  forall color depth alpha beta maximizing_player b,
    0 <= depth -> (Z.to_nat depth < fuel)%nat ->
    exists r, minimax fuel color depth alpha beta maximizing_player b = Some r.
Proof.
  induction fuel as [ | fuel IH ]; intros color depth alpha beta mx b Hd Hf; [ lia | ].
  cbn [minimax].
  destruct ((depth =? 0) || is_game_over b) eqn:Hbase.
  - destruct (evaluate_board_returns color b) as [v ->]. eexists; reflexivity.
  - apply orb_false_iff in Hbase as [Hz _]. apply Z.eqb_neq in Hz.
    destruct mx.
    + apply maximizing_loop_returns. intros a bd. apply IH; lia.
    + apply minimizing_loop_returns. intros a bd. apply IH; lia.
Qed.

(** *** Every push is undone *)

Section Restore.
Hypothesis pop_push : forall (b : Board) (move : Move), pop (push b move) = b.

Lemma maximizing_loop_restores (recurse : score -> Board -> option (@search_result Board Move)) :
  (forall a bd r, recurse a bd = Some r -> snd r = bd) ->
  forall moves best_eval best_move alpha beta b r,
    maximizing_loop recurse moves best_eval best_move alpha beta b = Some r ->
    snd r = b.
Proof.
  intros Hrec moves.
  induction moves as [ | move rest IH ]; intros best_eval best_move alpha beta b r;
    cbn [maximizing_loop].
  - intros [= <-]. reflexivity.
  - destruct (recurse alpha (push b move)) as [[[e mv] bd] | ] eqn:Hcall; [ | discriminate ].
    apply Hrec in Hcall. cbn in Hcall. subst bd. rewrite pop_push.
    destruct (score_ltb best_eval e);
      match goal with |- context [if ?c then _ else _] => destruct c end;
      solve [ intros [= <-]; reflexivity | apply IH ].
Qed.

Lemma minimizing_loop_restores (recurse : score -> Board -> option (@search_result Board Move)) :
  (forall a bd r, recurse a bd = Some r -> snd r = bd) ->
  forall moves best_eval best_move alpha beta b r,
    minimizing_loop recurse moves best_eval best_move alpha beta b = Some r ->
    snd r = b.
Proof.
  intros Hrec moves.
  induction moves as [ | move rest IH ]; intros best_eval best_move alpha beta b r;
    cbn [minimizing_loop].
  - intros [= <-]. reflexivity.
  - destruct (recurse beta (push b move)) as [[[e mv] bd] | ] eqn:Hcall; [ | discriminate ].
    apply Hrec in Hcall. cbn in Hcall. subst bd. rewrite pop_push.
    destruct (score_ltb e best_eval);
      match goal with |- context [if ?c then _ else _] => destruct c end;
      solve [ intros [= <-]; reflexivity | apply IH ].
Qed.

Lemma minimax_restores (fuel : nat) :
  forall color depth alpha beta maximizing_player b r,
    minimax fuel color depth alpha beta maximizing_player b = Some r ->
    snd r = b.
Proof.
  induction fuel as [ | fuel IH ]; intros color depth alpha beta mx b r; cbn [minimax];
    [ discriminate | ].
  destruct ((depth =? 0) || is_game_over b).
  - destruct (evaluate_board color b); [ intros [= <-]; reflexivity | discriminate ].
  - destruct mx.
    + apply maximizing_loop_restores. intros a bd r'. apply IH.
    + apply minimizing_loop_restores. intros a bd r'. apply IH.
Qed.

End Restore.

(** *** The move comes from the list *)

Lemma maximizing_loop_move (recurse : score -> Board -> option (@search_result Board Move)) :
  forall moves best_eval best_move alpha beta b v move b',
    maximizing_loop recurse moves best_eval best_move alpha beta b
    = Some (v, Some move, b') ->
    best_move = Some move \/ In move moves.
Proof.
  induction moves as [ | first rest IH ]; intros best_eval best_move alpha beta b v move b';
    cbn [maximizing_loop].
  - intros [= _ -> _]. left; reflexivity.
  - destruct (recurse alpha (push b first)) as [[[e mv] bd] | ]; [ | discriminate ].
    destruct (score_ltb best_eval e);
      match goal with |- context [if ?c then _ else _] => destruct c end;
      intros H;
      try (injection H as _ H _);
      try (apply IH in H as [H | H]);
      try (injection H as H); subst;
      cbn [In]; auto.
Qed.

Lemma minimizing_loop_move (recurse : score -> Board -> option (@search_result Board Move)) :
  forall moves best_eval best_move alpha beta b v move b',
    minimizing_loop recurse moves best_eval best_move alpha beta b
    = Some (v, Some move, b') ->
    best_move = Some move \/ In move moves.
Proof.
  induction moves as [ | first rest IH ]; intros best_eval best_move alpha beta b v move b';
    cbn [minimizing_loop].
  - intros [= _ -> _]. left; reflexivity.
  - destruct (recurse beta (push b first)) as [[[e mv] bd] | ]; [ | discriminate ].
    destruct (score_ltb e best_eval);
      match goal with |- context [if ?c then _ else _] => destruct c end;
      intros H;
      try (injection H as _ H _);
      try (apply IH in H as [H | H]);
      try (injection H as H); subst;
      cbn [In]; auto.
Qed.

End SearchFacts.

(** ** Pruning does not change the score *)

Lemma score_leb_antisym (x y : score) :
  score_leb x y = true -> score_leb y x = true -> x = y.
Proof. score_cases. Qed.

Section Pruning.
Context {Board Move : Type} {Q : BoardQueries Board} {G : MoveGen Board Move}.
Hypothesis pop_push : forall (b : Board) (move : Move), pop (push b move) = b.

Variable recurse : score -> Board -> option (@search_result Board Move).
Variable value : Board -> option score.
Hypothesis recurse_restores : forall a bd r, recurse a bd = Some r -> snd r = bd.

Lemma maximizing_loop_within (beta : score) (b : Board) :
  (forall a bd e mv bd' m,
      score_ltb a beta = true ->
      recurse a bd = Some (e, mv, bd') -> value bd = Some m -> within a beta e m) ->
  forall moves best_eval best_move alpha v mv b' R,
    score_leb best_eval alpha = true ->
    score_ltb alpha beta = true ->
    maximizing_loop recurse moves best_eval best_move alpha beta b = Some (v, mv, b') ->
    largest (map (fun move => value (push b move)) moves) = Some R ->
    within alpha beta v R /\ score_leb best_eval v = true.
Proof.
  intros Hrec moves.
  induction moves as [ | move rest IH ]; intros best_eval best_move alpha v mv b' R Hbest Hwin;
    cbn [maximizing_loop map largest].
  - intros [= <- _ _] [= <-]. clear Hrec. score_cases.
  - destruct (recurse alpha (push b move)) as [[[e mv0] bd] | ] eqn:Hcall; [ | discriminate ].
    pose proof (recurse_restores _ _ _ Hcall) as Hbd. cbn in Hbd. subst bd.
    rewrite pop_push.
    destruct (value (push b move)) as [m | ] eqn:Hvalue; [ | discriminate ].
    destruct (largest (map (fun move => value (push b move)) rest)) as [R' | ] eqn:Hrest;
      [ | discriminate ].
    pose proof (Hrec _ _ _ _ _ _ Hwin Hcall Hvalue) as Hchild.
    destruct (score_ltb best_eval e) eqn:Hlt;
      match goal with |- context [if ?c then _ else _] => destruct c eqn:Hcut end;
      intros Hloop [= <-];
      try (injection Hloop as <- _ _);
      try (eapply IH in Hloop;
           [ | | | reflexivity ];
           [ destruct Hloop as [Hloop Hle] | | ]);
      clear IH Hrec Hcall Hvalue Hrest; score_cases.
Qed.

Lemma minimizing_loop_within (alpha : score) (b : Board) :
  (forall bt bd e mv bd' m,
      score_ltb alpha bt = true ->
      recurse bt bd = Some (e, mv, bd') -> value bd = Some m -> within alpha bt e m) ->
  forall moves best_eval best_move beta v mv b' R,
    score_leb beta best_eval = true ->
    score_ltb alpha beta = true ->
    minimizing_loop recurse moves best_eval best_move alpha beta b = Some (v, mv, b') ->
    smallest (map (fun move => value (push b move)) moves) = Some R ->
    within alpha beta v R /\ score_leb v best_eval = true.
Proof.
  intros Hrec moves.
  induction moves as [ | move rest IH ]; intros best_eval best_move beta v mv b' R Hbest Hwin;
    cbn [minimizing_loop map smallest].
  - intros [= <- _ _] [= <-]. clear Hrec. score_cases.
  - destruct (recurse beta (push b move)) as [[[e mv0] bd] | ] eqn:Hcall; [ | discriminate ].
    pose proof (recurse_restores _ _ _ Hcall) as Hbd. cbn in Hbd. subst bd.
    rewrite pop_push.
    destruct (value (push b move)) as [m | ] eqn:Hvalue; [ | discriminate ].
    destruct (smallest (map (fun move => value (push b move)) rest)) as [R' | ] eqn:Hrest;
      [ | discriminate ].
    pose proof (Hrec _ _ _ _ _ _ Hwin Hcall Hvalue) as Hchild.
    destruct (score_ltb e best_eval) eqn:Hlt;
      match goal with |- context [if ?c then _ else _] => destruct c eqn:Hcut end;
      intros Hloop [= <-];
      try (injection Hloop as <- _ _);
      try (eapply IH in Hloop;
           [ | | | reflexivity ];
           [ destruct Hloop as [Hloop Hle] | | ]);
      clear IH Hrec Hcall Hvalue Hrest; score_cases.
Qed.

End Pruning.

Section PruningTheorem.
Context {Board Move : Type} {Q : BoardQueries Board} {G : MoveGen Board Move}.
Hypothesis pop_push : forall (b : Board) (move : Move), pop (push b move) = b.

Lemma minimax_within (fuel : nat) :
  forall color depth alpha beta maximizing_player b v mv b' m,
    score_ltb alpha beta = true ->
    minimax fuel color depth alpha beta maximizing_player b = Some (v, mv, b') ->
    full_minimax fuel color depth maximizing_player b = Some m ->
    within alpha beta v m.
Proof.
  induction fuel as [ | fuel IH ]; intros color depth alpha beta mx b v mv b' m Hwin;
    cbn [minimax full_minimax]; [ discriminate | ].
  destruct ((depth =? 0) || is_game_over b).
  - destruct (evaluate_board color b) as [ev | ]; [ | discriminate ].
    cbn [option_map]. intros [= <- _ _] [= <-]. score_cases.
  - destruct mx; intros Hloop Hfull.
    + eapply (maximizing_loop_within pop_push
                (fun a bd => minimax fuel color (depth - 1) a beta false bd)
                (full_minimax fuel color (depth - 1) false)) in Hloop.
      * apply Hloop.
      * intros a bd r. apply minimax_restores, pop_push.
      * intros a bd e mv' bd' m' Ha. apply IH, Ha.
      * apply NegInf_least.
      * exact Hwin.
      * exact Hfull.
    + eapply (minimizing_loop_within pop_push
                (fun bt bd => minimax fuel color (depth - 1) alpha bt true bd)
                (full_minimax fuel color (depth - 1) true)) in Hloop.
      * apply Hloop.
      * intros a bd r. apply minimax_restores, pop_push.
      * intros bt bd e mv' bd' m' Hbt. apply IH, Hbt.
      * apply PosInf_greatest.
      * exact Hwin.
      * exact Hfull.
Qed.

Lemma largest_returns (values : list (option score)) :
  (forall v, In v values -> exists s, v = Some s) -> exists s, largest values = Some s.
Proof.
  induction values as [ | v values IH ]; intros Hall; cbn [largest].
  - eexists; reflexivity.
  - destruct (Hall v (or_introl eq_refl)) as [s ->].
    destruct IH as [w ->]; [ intros; apply Hall; right; assumption | ].
    eexists; reflexivity.
Qed.

Lemma smallest_returns (values : list (option score)) :
  (forall v, In v values -> exists s, v = Some s) -> exists s, smallest values = Some s.
Proof.
  induction values as [ | v values IH ]; intros Hall; cbn [smallest].
  - eexists; reflexivity.
  - destruct (Hall v (or_introl eq_refl)) as [s ->].
    destruct IH as [w ->]; [ intros; apply Hall; right; assumption | ].
    eexists; reflexivity.
Qed.

Lemma full_minimax_returns (fuel : nat) :
  forall color depth maximizing_player b,
    0 <= depth -> (Z.to_nat depth < fuel)%nat ->
    exists m, full_minimax fuel color depth maximizing_player b = Some m.
Proof.
  induction fuel as [ | fuel IH ]; intros color depth mx b Hd Hf; [ lia | ].
  cbn [full_minimax].
  destruct ((depth =? 0) || is_game_over b) eqn:Hbase.
  - destruct (evaluate_board_returns color b) as [v ->]. eexists; reflexivity.
  - apply orb_false_iff in Hbase as [Hz _]. apply Z.eqb_neq in Hz.
    destruct mx; [ apply largest_returns | apply smallest_returns ];
      intros v Hin; apply in_map_iff in Hin as [move [<- _]]; apply IH; lia.
Qed.

(** C1.  For every position, every depth that is not negative and either
    player to move, [minimax] called with the full window (alpha minus
    infinity, beta plus infinity) returns, and the score it returns is the
    value the unpruned minimax gives to the same position at the same
    depth.  (The move is not compared.) *)
Theorem alpha_beta_same_score :
  forall (fuel : nat) (color : Color) (depth : Z) (maximizing_player : bool) (b : Board),
    0 <= depth -> (Z.to_nat depth < fuel)%nat ->
    exists (v : score) (move : option Move),
      minimax fuel color depth NegInf PosInf maximizing_player b = Some (v, move, b) /\
      full_minimax fuel color depth maximizing_player b = Some v.
Proof.
  intros fuel color depth mx b Hd Hf.
  destruct (minimax_returns fuel color depth NegInf PosInf mx b Hd Hf) as [[[v mv] b'] Hrun].
  destruct (full_minimax_returns fuel color depth mx b Hd Hf) as [m Hfull].
  pose proof (minimax_restores pop_push _ _ _ _ _ _ _ _ Hrun) as Hb. cbn in Hb. subst b'.
  assert (Hw : within NegInf PosInf v m)
    by (eapply minimax_within; [ reflexivity | exact Hrun | exact Hfull ]).
  exists v, mv. split; [ exact Hrun | ].
  rewrite Hfull. f_equal.
  clear Hrun Hfull. destruct Hw as [Hup Hlow].
  apply score_leb_antisym.
  - destruct v; try (apply Hup; reflexivity). clear Hup.
    specialize (Hlow eq_refl). destruct m; cbn in Hlow; try discriminate. reflexivity.
  - destruct v; try (apply Hlow; reflexivity). clear Hlow.
    specialize (Hup eq_refl). destruct m; cbn in Hup; try discriminate. reflexivity.
Qed.

End PruningTheorem.

(** ** The base case, the sentinels and negative depths *)

Section SearchCases.
Context {Board Move : Type} {Q : BoardQueries Board} {G : MoveGen Board Move}.

Lemma minimax_base_case (fuel : nat) (color : Color) (depth : Z) (alpha beta : score)
    (maximizing_player : bool) (b : Board) :
  (depth =? 0) || is_game_over b = true ->
  exists v, evaluate_board color b = Some v /\
            minimax (S fuel) color depth alpha beta maximizing_player b
            = Some (Fin v, None, b).
Proof.
  intros Hbase. cbn [minimax]. rewrite Hbase.
  destruct (evaluate_board_returns color b) as [v Hv].
  exists v. rewrite Hv. split; reflexivity.
Qed.

Lemma maximizing_loop_ext (recurse recurse' : score -> Board -> option (@search_result Board Move)) :
  (forall a bd, recurse a bd = recurse' a bd) ->
  forall moves best_eval best_move alpha beta b,
    maximizing_loop recurse moves best_eval best_move alpha beta b
    = maximizing_loop recurse' moves best_eval best_move alpha beta b.
Proof.
  intros Hext moves.
  induction moves as [ | move rest IH ]; intros best_eval best_move alpha beta b;
    cbn [maximizing_loop]; [ reflexivity | ].
  rewrite Hext.
  destruct (recurse' alpha (push b move)) as [[[e mv] bd] | ]; [ | reflexivity ].
  destruct (score_ltb best_eval e);
    match goal with |- context [if ?c then _ else _] => destruct c end;
    solve [ reflexivity | apply IH ].
Qed.

Lemma minimizing_loop_ext (recurse recurse' : score -> Board -> option (@search_result Board Move)) :
  (forall a bd, recurse a bd = recurse' a bd) ->
  forall moves best_eval best_move alpha beta b,
    minimizing_loop recurse moves best_eval best_move alpha beta b
    = minimizing_loop recurse' moves best_eval best_move alpha beta b.
Proof.
  intros Hext moves.
  induction moves as [ | move rest IH ]; intros best_eval best_move alpha beta b;
    cbn [minimizing_loop]; [ reflexivity | ].
  rewrite Hext.
  destruct (recurse' beta (push b move)) as [[[e mv] bd] | ]; [ | reflexivity ].
  destruct (score_ltb e best_eval);
    match goal with |- context [if ?c then _ else _] => destruct c end;
    solve [ reflexivity | apply IH ].
Qed.

Lemma minimax_negative_depth (fuel : nat) :
  forall color depth depth' alpha beta maximizing_player b,
    depth < 0 -> depth' < 0 ->
    minimax fuel color depth alpha beta maximizing_player b
    = minimax fuel color depth' alpha beta maximizing_player b.
Proof.
  induction fuel as [ | fuel IH ]; intros color depth depth' alpha beta mx b Hd Hd';
    cbn [minimax]; [ reflexivity | ].
  replace (depth =? 0) with false by lia.
  replace (depth' =? 0) with false by lia.
  cbn [orb].
  destruct (is_game_over b); [ reflexivity | ].
  destruct mx; [ apply maximizing_loop_ext | apply minimizing_loop_ext ];
    intros a bd; apply IH; lia.
Qed.

(** *** Finite results *)

Section Finite.
Hypothesis pop_push : forall (b : Board) (move : Move), pop (push b move) = b.
Variable recurse : score -> Board -> option (@search_result Board Move).
Variable b : Board.
Hypothesis recurse_restores : forall a bd r, recurse a bd = Some r -> snd r = bd.

Lemma maximizing_loop_finite :
  forall moves,
    (forall move a r, In move moves -> recurse a (push b move) = Some r ->
                      is_finite (fst (fst r)) = true) ->
    forall best_eval best_move alpha beta r,
      best_eval <> PosInf ->
      moves <> [] \/ is_finite best_eval = true ->
      maximizing_loop recurse moves best_eval best_move alpha beta b = Some r ->
      is_finite (fst (fst r)) = true.
Proof.
  induction moves as [ | move rest IH ]; intros Hrec best_eval best_move alpha beta r Hbest Hne;
    cbn [maximizing_loop].
  - intros [= <-]. destruct Hne as [Hne | Hne]; [ congruence | exact Hne ].
  - destruct (recurse alpha (push b move)) as [[[e mv] bd] | ] eqn:Hcall; [ | discriminate ].
    pose proof (recurse_restores _ _ _ Hcall) as Hbd. cbn in Hbd. subst bd.
    rewrite pop_push.
    pose proof (Hrec move alpha _ (or_introl eq_refl) Hcall) as He. cbn in He.
    assert (Hrest : forall move a r, In move rest -> recurse a (push b move) = Some r ->
                                     is_finite (fst (fst r)) = true)
      by (intros; eapply Hrec; [ right | ]; eassumption).
    destruct (score_ltb best_eval e) eqn:Hlt;
      match goal with |- context [if ?c then _ else _] => destruct c end;
      intros Hloop;
      try (injection Hloop as <-; cbn);
      try (eapply IH in Hloop; [ exact Hloop | exact Hrest | | right ]);
      clear IH Hrec Hrest Hcall; destruct best_eval, e;
      cbn in *; congruence.
Qed.

Lemma minimizing_loop_finite :
  forall moves,
    (forall move a r, In move moves -> recurse a (push b move) = Some r ->
                      is_finite (fst (fst r)) = true) ->
    forall best_eval best_move alpha beta r,
      best_eval <> NegInf ->
      moves <> [] \/ is_finite best_eval = true ->
      minimizing_loop recurse moves best_eval best_move alpha beta b = Some r ->
      is_finite (fst (fst r)) = true.
Proof.
  induction moves as [ | move rest IH ]; intros Hrec best_eval best_move alpha beta r Hbest Hne;
    cbn [minimizing_loop].
  - intros [= <-]. destruct Hne as [Hne | Hne]; [ congruence | exact Hne ].
  - destruct (recurse beta (push b move)) as [[[e mv] bd] | ] eqn:Hcall; [ | discriminate ].
    pose proof (recurse_restores _ _ _ Hcall) as Hbd. cbn in Hbd. subst bd.
    rewrite pop_push.
    pose proof (Hrec move beta _ (or_introl eq_refl) Hcall) as He. cbn in He.
    assert (Hrest : forall move a r, In move rest -> recurse a (push b move) = Some r ->
                                     is_finite (fst (fst r)) = true)
      by (intros; eapply Hrec; [ right | ]; eassumption).
    destruct (score_ltb e best_eval) eqn:Hlt;
      match goal with |- context [if ?c then _ else _] => destruct c end;
      intros Hloop;
      try (injection Hloop as <-; cbn);
      try (eapply IH in Hloop; [ exact Hloop | exact Hrest | | right ]);
      clear IH Hrec Hrest Hcall; destruct best_eval, e;
      cbn in *; congruence.
Qed.

End Finite.

Lemma minimax_finite (pop_push : forall (b : Board) (move : Move), pop (push b move) = b)
    (fuel : nat) :
  forall color depth alpha beta maximizing_player b r,
    no_dead_end fuel depth b = true ->
    minimax fuel color depth alpha beta maximizing_player b = Some r ->
    is_finite (fst (fst r)) = true.
Proof.
  induction fuel as [ | fuel IH ]; intros color depth alpha beta mx b r;
    cbn [minimax no_dead_end]; [ discriminate | ].
  destruct ((depth =? 0) || is_game_over b).
  - intros _. destruct (evaluate_board color b); [ intros [= <-]; reflexivity | discriminate ].
  - intros Hfree.
    assert (Hmoves : legal_moves b <> []) by (destruct (legal_moves b); congruence).
    assert (Hnext : forall move, In move (legal_moves b) ->
                                 no_dead_end fuel (depth - 1) (push b move) = true).
    { apply forallb_forall. destruct (legal_moves b); [ discriminate | exact Hfree ]. }
    destruct mx.
    + apply maximizing_loop_finite;
        [ exact pop_push | intros a bd r'; apply minimax_restores, pop_push
        | intros move a r' Hin; apply IH, Hnext, Hin | discriminate | left; exact Hmoves ].
    + apply minimizing_loop_finite;
        [ exact pop_push | intros a bd r'; apply minimax_restores, pop_push
        | intros move a r' Hin; apply IH, Hnext, Hin | discriminate | left; exact Hmoves ].
Qed.

End SearchCases.

(** ** The search: the specified properties *)

Section SearchClaims.
Context {Board Move : Type} {Q : BoardQueries Board} {G : MoveGen Board Move}.

(** C2.  When the rules library's [pop] undoes its [push], the board is the
    same after a call as before it: whatever [minimax], [get_best_move] or
    [next_move] return, at any depth, with any window, on the cutoff exit
    of the loops as on the normal one, they leave the board they were given;
    and for a depth that is not negative [minimax] does return. *)
Theorem board_restored :
  (forall (b : Board) (move : Move), pop (push b move) = b) ->
  forall (color : Color) (depth : Z) (b : Board),
    (forall fuel alpha beta maximizing_player r,
        minimax fuel color depth alpha beta maximizing_player b = Some r -> snd r = b) /\
    (forall fuel r, get_best_move fuel color depth b = Some r -> snd r = b) /\
    (forall fuel r, next_move fuel color depth b = Some r -> snd r = b) /\
    (0 <= depth ->
     forall fuel alpha beta maximizing_player,
       (Z.to_nat depth < fuel)%nat ->
       exists v move,
         minimax fuel color depth alpha beta maximizing_player b = Some (v, move, b)).
Proof.
  intros pop_push color depth b. repeat split.
  - intros fuel alpha beta mx r. apply minimax_restores, pop_push.
  - intros fuel r. unfold get_best_move.
    destruct (minimax fuel color depth NegInf PosInf true b) as [[[v mv] b'] | ] eqn:Hrun;
      [ | discriminate ].
    intros [= <-]. apply (minimax_restores pop_push) in Hrun. exact Hrun.
  - intros fuel r. unfold next_move.
    destruct (minimax fuel color depth NegInf PosInf true b) as [[[v mv] b'] | ] eqn:Hrun;
      [ | discriminate ].
    intros [= <-]. apply (minimax_restores pop_push) in Hrun. exact Hrun.
  - intros Hd fuel alpha beta mx Hf.
    destruct (minimax_returns fuel color depth alpha beta mx b Hd Hf) as [[[v mv] b'] Hrun].
    pose proof (minimax_restores pop_push _ _ _ _ _ _ _ _ Hrun) as Hb. cbn in Hb. subst b'.
    exists v, mv. exact Hrun.
Qed.

(** C5.  At depth 0, or on a position the rules library reports as game
    over, [minimax] returns the evaluation of the position and no move, in
    its first call frame (one unit of fuel is enough) and whatever the move
    generator and the move stack of the library are: no legal move is
    enumerated, none is pushed.  In particular, checkmate being one of the
    game-over conditions, a checkmated position searched at a positive depth
    gives the evaluation and no move. *)
Theorem base_case_returns_evaluation :
  forall (fuel : nat) (color : Color) (alpha beta : score) (maximizing_player : bool)
         (b : Board),
    (forall depth,
        depth = 0 \/ is_game_over b = true ->
        exists v,
          evaluate_board color b = Some v /\
          minimax (S fuel) color depth alpha beta maximizing_player b
          = Some (Fin v, None, b) /\
          forall legal_moves' push' pop',
            @minimax Board Move Q (with_moves legal_moves' push' pop')
                     (S fuel) color depth alpha beta maximizing_player b
            = Some (Fin v, None, b)) /\
    (forall depth,
        (is_checkmate b = true -> is_game_over b = true) ->
        is_checkmate b = true -> 0 < depth ->
        exists v,
          evaluate_board color b = Some v /\
          minimax (S fuel) color depth alpha beta maximizing_player b
          = Some (Fin v, None, b)).
Proof.
  intros fuel color alpha beta mx b. split.
  - intros depth Hbase.
    assert (Htest : (depth =? 0) || is_game_over b = true).
    { destruct Hbase as [-> | ->]; [ reflexivity | apply orb_true_r ]. }
    destruct (minimax_base_case fuel color depth alpha beta mx b Htest) as [v [Hv Hrun]].
    exists v. repeat split; [ exact Hv | exact Hrun | ].
    intros legal_moves' push' pop'.
    cbn [minimax with_moves is_game_over]. rewrite Htest, Hv. reflexivity.
  - intros depth Hover Hmate _.
    apply minimax_base_case. rewrite (Hover Hmate). apply orb_true_r.
Qed.

(** C10.  A move returned by [minimax] is one of the legal moves of the
    position the call was given. *)
Theorem returned_move_is_legal :
  forall (fuel : nat) (color : Color) (depth : Z) (alpha beta : score)
         (maximizing_player : bool) (b : Board) (v : score) (move : Move) (b' : Board),
    minimax fuel color depth alpha beta maximizing_player b = Some (v, Some move, b') ->
    In move (legal_moves b).
Proof.
  intros [ | fuel ] color depth alpha beta mx b v move b'; cbn [minimax]; [ discriminate | ].
  destruct ((depth =? 0) || is_game_over b).
  - destruct (evaluate_board color b); discriminate.
  - destruct mx; intros Hloop.
    + apply maximizing_loop_move in Hloop as [Hnone | Hin]; [ discriminate | exact Hin ].
    + apply minimizing_loop_move in Hloop as [Hnone | Hin]; [ discriminate | exact Hin ].
Qed.

Lemma no_dead_end_when_ruled :
  (forall b : Board, legal_moves b = [] -> is_game_over b = true) ->
  forall (fuel : nat) (depth : Z) (b : Board), no_dead_end fuel depth b = true.
Proof.
  intros Hrule fuel.
  induction fuel as [ | fuel IH ]; intros depth b; cbn [no_dead_end]; [ reflexivity | ].
  destruct ((depth =? 0) || is_game_over b) eqn:Hbase; [ reflexivity | ].
  apply orb_false_iff in Hbase as [_ Hover].
  destruct (legal_moves b) as [ | move rest ] eqn:Hmoves.
  - rewrite (Hrule b Hmoves) in Hover. discriminate.
  - apply forallb_forall. intros move' _. apply IH.
Qed.

(** C8.  On a position that is not game over and has no legal move,
    [minimax] at a positive depth returns the seed, minus infinity when
    maximizing and plus infinity when minimizing, and no move.  By contrast,
    with the rules library as python-chess is ([pop] undoes [push], and a
    position without a legal move is game over), whenever the position has a
    legal move the score returned is a finite evaluation, never one of the
    two infinities; and for a depth that is not negative a score is
    returned. *)
Theorem sentinel_never_a_real_evaluation :
  (forall (fuel : nat) (color : Color) (depth : Z) (alpha beta : score)
          (maximizing_player : bool) (b : Board),
      0 < depth -> is_game_over b = false -> legal_moves b = [] ->
      minimax (S fuel) color depth alpha beta maximizing_player b
      = Some (if maximizing_player then NegInf else PosInf, None, b)) /\
  ((forall (b : Board) (move : Move), pop (push b move) = b) ->
   (forall b : Board, legal_moves b = [] -> is_game_over b = true) ->
   forall (fuel : nat) (color : Color) (depth : Z) (alpha beta : score)
          (maximizing_player : bool) (b : Board),
     legal_moves b <> [] ->
     (forall (v : score) (move : option Move) (b' : Board),
         minimax fuel color depth alpha beta maximizing_player b = Some (v, move, b') ->
         is_finite v = true) /\
     (0 <= depth -> (Z.to_nat depth < fuel)%nat ->
      exists (z : Z) (move : option Move),
        minimax fuel color depth alpha beta maximizing_player b = Some (Fin z, move, b))).
Proof.
  split.
  - intros fuel color depth alpha beta mx b Hd Hover Hmoves.
    cbn [minimax]. rewrite Hover, Hmoves.
    replace (depth =? 0) with false by lia.
    destruct mx; reflexivity.
  - intros pop_push Hrule fuel color depth alpha beta mx b _.
    assert (Hfinite : forall v move b',
               minimax fuel color depth alpha beta mx b = Some (v, move, b') ->
               is_finite v = true).
    { intros v move b' Hrun.
      apply (minimax_finite pop_push) in Hrun; [ exact Hrun | ].
      apply no_dead_end_when_ruled, Hrule. }
    split; [ exact Hfinite | ].
    intros Hd Hf.
    destruct (minimax_returns fuel color depth alpha beta mx b Hd Hf) as [[[v mv] b'] Hrun].
    pose proof (minimax_restores pop_push _ _ _ _ _ _ _ _ Hrun) as Hb. cbn in Hb. subst b'.
    pose proof (Hfinite _ _ _ Hrun) as Hv.
    destruct v as [ | z | ]; try discriminate.
    exists z, mv. exact Hrun.
Qed.

(** C6, as the code has it.  A negative depth is not rejected: [minimax]
    does not look at the sign of [depth].  On a game-over position it
    returns the evaluation and no move; on any other it runs its loop over
    the legal moves, recursing with [depth - 1]; and its result is the same
    for every negative depth, the test [depth == 0] never being true: the
    search goes on until the game is over. *)
Theorem negative_depth_is_searched :
  forall (fuel : nat) (color : Color) (depth : Z) (alpha beta : score)
         (maximizing_player : bool) (b : Board),
    depth < 0 ->
    (is_game_over b = true ->
     exists v,
       evaluate_board color b = Some v /\
       minimax (S fuel) color depth alpha beta maximizing_player b
       = Some (Fin v, None, b)) /\
    (is_game_over b = false ->
     minimax (S fuel) color depth alpha beta maximizing_player b
     = if maximizing_player
       then maximizing_loop
              (fun alpha b => minimax fuel color (depth - 1) alpha beta false b)
              (legal_moves b) NegInf None alpha beta b
       else minimizing_loop
              (fun beta b => minimax fuel color (depth - 1) alpha beta true b)
              (legal_moves b) PosInf None alpha beta b) /\
    (forall depth',
        depth' < 0 ->
        minimax fuel color depth alpha beta maximizing_player b
        = minimax fuel color depth' alpha beta maximizing_player b).
Proof.
  intros fuel color depth alpha beta mx b Hd. repeat split.
  - intros Hover. apply minimax_base_case. rewrite Hover. apply orb_true_r.
  - intros Hover. cbn [minimax]. rewrite Hover.
    replace (depth =? 0) with false by lia. reflexivity.
  - intros depth' Hd'. apply minimax_negative_depth; assumption.
Qed.

(** C7, what the code does.  [get_best_move] returns the pair made of the
    score and the move, which is neither a move nor [None]. *)
Theorem get_best_move_returns_pair :
  forall (fuel : nat) (color : Color) (self_depth : Z) (b : Board),
    0 <= self_depth -> (Z.to_nat self_depth < fuel)%nat ->
    exists (best_eval : score) (best_move : option Move) (b' : Board),
      minimax fuel color self_depth NegInf PosInf true b = Some (best_eval, best_move, b') /\
      get_best_move fuel color self_depth b
      = Some (PyTuple (PyNumber best_eval) (py_move best_move), b') /\
      is_move_or_none (PyTuple (PyNumber best_eval) (py_move best_move)) = false.
Proof.
  intros fuel color depth b Hd Hf.
  destruct (minimax_returns fuel color depth NegInf PosInf true b Hd Hf)
    as [[[v mv] b'] Hrun].
  exists v, mv, b'. unfold get_best_move. rewrite Hrun. repeat split.
Qed.

End SearchClaims.

(** *** On the game trees *)

Lemma tree_pop_push (b : TreeBoard) (move : nat) : pop (push b move) = b.
Proof. destruct b; reflexivity. Qed.

Lemma alpha_beta_same_score_witness :
  exists v move,
    minimax 3 WHITE 2 NegInf PosInf true (start_at two_plies)
    = Some (v, move, start_at two_plies) /\
    full_minimax 3 WHITE 2 true (start_at two_plies) = Some v.
Proof.
  apply (alpha_beta_same_score tree_pop_push 3 WHITE 2 true (start_at two_plies)).
  - lia.
  - cbn; lia.
Defined.

Lemma board_restored_witness :
  (exists r,
      minimax 3 WHITE 2 NegInf PosInf true (start_at two_plies) = Some r /\
      snd r = start_at two_plies) /\
  (exists v move,
      minimax 3 WHITE 2 (Fin (pts 3)) (Fin (pts 4)) false (start_at two_plies)
      = Some (v, move, start_at two_plies)).
Proof.
  pose proof (board_restored tree_pop_push WHITE 2 (start_at two_plies)) as [Hmin [_ [_ Hret]]].
  split.
  - exists (Fin (pts 3), Some 0%nat, start_at two_plies).
    assert (Hrun : minimax 3 WHITE 2 NegInf PosInf true (start_at two_plies)
                   = Some (Fin (pts 3), Some 0%nat, start_at two_plies))
      by (vm_compute; reflexivity).
    split; [ exact Hrun | exact (Hmin 3%nat NegInf PosInf true _ Hrun) ].
  - apply Hret; [ lia | cbn; lia ].
Defined.

Lemma base_case_returns_evaluation_witness :
  (exists v,
      evaluate_board WHITE (start_at two_plies) = Some v /\
      minimax 1 WHITE 0 NegInf PosInf true (start_at two_plies)
      = Some (Fin v, None, start_at two_plies) /\
      forall legal_moves' push' pop',
        @minimax TreeBoard nat tree_queries (with_moves legal_moves' push' pop')
                 1 WHITE 0 NegInf PosInf true (start_at two_plies)
        = Some (Fin v, None, start_at two_plies)) /\
  (exists v,
      evaluate_board WHITE (start_at mated) = Some v /\
      minimax 1 WHITE 2 NegInf PosInf true (start_at mated)
      = Some (Fin v, None, start_at mated)).
Proof.
  split.
  - apply (proj1 (base_case_returns_evaluation 0 WHITE NegInf PosInf true
                    (start_at two_plies)) 0).
    left. reflexivity.
  - apply (proj2 (base_case_returns_evaluation 0 WHITE NegInf PosInf true
                    (start_at mated)) 2).
    + reflexivity.
    + reflexivity.
    + lia.
Defined.

Lemma returned_move_is_legal_witness :
  In 0%nat (legal_moves (start_at two_plies)).
Proof.
  apply (returned_move_is_legal 3 WHITE 2 NegInf PosInf true (start_at two_plies)
           (Fin (pts 3)) 0%nat (start_at two_plies)).
  vm_compute. reflexivity.
Defined.

(** Where the library gave no such guarantee, the seed of a position
    without legal moves would travel upwards. *)
Example seed_travels_up_from_dead_end :
  minimax 3 WHITE 2 NegInf PosInf true (start_at before_dead_end)
  = Some (PosInf, Some 0%nat, start_at before_dead_end).
Proof. reflexivity. Qed.

Lemma ruled_tree_game_over (b : TreeBoard) :
  @legal_moves _ _ ruled_tree_moves b = [] -> @is_game_over _ _ ruled_tree_moves b = true.
Proof.
  cbn. destruct (children_of (current b)); [ intros _; apply orb_true_r | discriminate ].
Qed.

Lemma sentinel_never_a_real_evaluation_witness :
  minimax 1 WHITE 1 NegInf PosInf true (start_at dead_end)
  = Some (NegInf, None, start_at dead_end) /\
  (exists v,
      minimax (G := ruled_tree_moves) 3 WHITE 2 NegInf PosInf true (start_at two_plies)
      = Some (v, Some 0%nat, start_at two_plies) /\
      is_finite v = true) /\
  (exists z move,
      minimax (G := ruled_tree_moves) 3 WHITE 2 NegInf PosInf true (start_at two_plies)
      = Some (Fin z, move, start_at two_plies)).
Proof.
  split; [ | split ].
  - apply (proj1 (sentinel_never_a_real_evaluation (G := tree_moves))
             0%nat WHITE 1 NegInf PosInf true (start_at dead_end));
      [ lia | reflexivity | reflexivity ].
  - exists (Fin (pts 3)).
    assert (Hrun : minimax (G := ruled_tree_moves) 3 WHITE 2 NegInf PosInf true
                     (start_at two_plies)
                   = Some (Fin (pts 3), Some 0%nat, start_at two_plies))
      by (vm_compute; reflexivity).
    split; [ exact Hrun | ].
    apply (proj1 (proj2 (sentinel_never_a_real_evaluation (G := ruled_tree_moves))
                    tree_pop_push ruled_tree_game_over 3%nat WHITE 2 NegInf PosInf true
                    (start_at two_plies) ltac:(discriminate))
             (Fin (pts 3)) (Some 0%nat) (start_at two_plies) Hrun).
  - apply (proj2 (proj2 (sentinel_never_a_real_evaluation (G := ruled_tree_moves))
                    tree_pop_push ruled_tree_game_over 3%nat WHITE 2 NegInf PosInf true
                    (start_at two_plies) ltac:(discriminate)));
      [ lia | cbn; lia ].
Defined.

(** C6, as stated, fails: called with depth -1 the search returns a result,
    the evaluation on a finished game, and a move found by searching
    further on a game that is not finished. *)
Lemma negative_depth_returns :
  minimax 1 WHITE (-1) NegInf PosInf true (start_at mated)
  = Some (Fin (pts 64), None, start_at mated) /\
  minimax 2 WHITE (-1) NegInf PosInf true (start_at one_move_left)
  = Some (Fin (pts 1), Some 0%nat, start_at one_move_left).
Proof. split; vm_compute; reflexivity. Qed.

Lemma negative_depth_is_searched_witness :
  (exists v,
      evaluate_board WHITE (start_at mated) = Some v /\
      minimax 1 WHITE (-1) NegInf PosInf true (start_at mated)
      = Some (Fin v, None, start_at mated)) /\
  minimax 2 WHITE (-1) NegInf PosInf true (start_at one_move_left)
  = maximizing_loop
      (fun alpha b => minimax 1 WHITE (-1 - 1) alpha PosInf false b)
      (legal_moves (start_at one_move_left)) NegInf None NegInf PosInf
      (start_at one_move_left) /\
  minimax 2 WHITE (-1) NegInf PosInf true (start_at one_move_left)
  = minimax 2 WHITE (-7) NegInf PosInf true (start_at one_move_left).
Proof.
  pose proof (negative_depth_is_searched 0 WHITE (-1) NegInf PosInf true (start_at mated))
    as Hmated.
  pose proof (negative_depth_is_searched 1 WHITE (-1) NegInf PosInf true
                (start_at one_move_left)) as Hloop.
  pose proof (negative_depth_is_searched 2 WHITE (-1) NegInf PosInf true
                (start_at one_move_left)) as Hsame.
  split; [ | split ].
  - apply Hmated; [ lia | reflexivity ].
  - apply Hloop; [ lia | reflexivity ].
  - apply Hsame; lia.
Defined.

Lemma get_best_move_returns_pair_witness :
  exists best_eval best_move b',
    minimax 4 WHITE default_depth NegInf PosInf true (start_at one_move_left)
    = Some (best_eval, best_move, b') /\
    get_best_move 4 WHITE default_depth (start_at one_move_left)
    = Some (PyTuple (PyNumber best_eval) (py_move best_move), b') /\
    is_move_or_none (PyTuple (PyNumber best_eval) (py_move best_move)) = false.
Proof.
  apply (get_best_move_returns_pair 4 WHITE default_depth (start_at one_move_left)).
  - unfold default_depth. lia.
  - cbn; lia.
Defined.

(** On the game of one move the two methods give the pair and the string. *)
Example get_best_move_one_move_left :
  get_best_move 4 WHITE default_depth (start_at one_move_left)
  = Some (PyTuple (PyNumber (Fin (pts 1))) (PyMove 0%nat), start_at one_move_left) /\
  next_move 4 WHITE default_depth (start_at one_move_left)
  = Some (PyStr "a", start_at one_move_left).
Proof. split; vm_compute; reflexivity. Qed.

(** The cutoff at work: with alpha at 3 the second move of [two_plies] is
    given up after its first reply (score 2), although its value, with the
    second reply, is -8. *)
Example cutoff_in_two_plies :
  minimax 2 WHITE 1 (Fin (pts 3)) PosInf false (push (start_at two_plies) 1%nat)
  = Some (Fin (pts 2), Some 0%nat, push (start_at two_plies) 1%nat) /\
  full_minimax 2 WHITE 1 false (push (start_at two_plies) 1%nat) = Some (Fin (pts (-8))).
Proof. split; vm_compute; reflexivity. Qed.

(** ** The evaluator: the specified properties *)

Section EvaluatorClaims.
Context {Board : Type} {Q : BoardQueries Board}.

(** The penalty is 0, -2 or -4: minus 2 for each side on which the opponent
    has lost its castling rights, when its king is on e8. *)
Lemma get_king_safety_penalty_value (color : Color) (b : Board) (king_square : Square) :
  get_king_safety_penalty color b king_square
  = - pts 2 * indicator (lost_kingside_at color b E8 king_square)
    - pts 2 * indicator (lost_queenside_at color b E8 king_square).
Proof.
  unfold get_king_safety_penalty, lost_kingside_at, lost_queenside_at, indicator.
  destruct (negb (has_kingside_castling_rights b (negb color)) && Nat.eqb king_square E8),
    (negb (has_queenside_castling_rights b (negb color)) && Nat.eqb king_square E8);
    reflexivity.
Qed.

(** The bonus is 0, 2 or 4: 2 for each castling right held, when the king is
    on e1. *)
Lemma get_king_safety_bonus_value (color : Color) (b : Board) (king_square : Square) :
  get_king_safety_bonus color b king_square
  = pts 2 * indicator (has_kingside_castling_rights b color && Nat.eqb king_square E1)
    + pts 2 * indicator (has_queenside_castling_rights b color && Nat.eqb king_square E1).
Proof.
  unfold get_king_safety_bonus, indicator.
  destruct (has_kingside_castling_rights b color && Nat.eqb king_square E1),
    (has_queenside_castling_rights b color && Nat.eqb king_square E1);
    reflexivity.
Qed.

(** Off e1 there is no bonus, whatever the colour and the rights. *)
Lemma get_king_safety_bonus_off_E1 (color : Color) (b : Board) (king_square : Square) :
  king_square <> E1 -> get_king_safety_bonus color b king_square = 0.
Proof.
  intros Hsq. rewrite get_king_safety_bonus_value.
  apply Nat.eqb_neq in Hsq. rewrite Hsq, !andb_false_r. reflexivity.
Qed.

(** C3, as the code has it.  From white's perspective, with both kings on
    the board, the king-safety-penalty term RAISES the evaluation by 2 when
    black has lost its kingside castling rights and its king is on its home
    square e8, and by 2 more when black has lost its queenside rights with
    the king on e8: the term is negative and it is subtracted. *)
Theorem penalty_raises_evaluation :
  forall (b : Board) (my_king_square opponent_king_square : Square),
    king b WHITE = Some my_king_square ->
    king b BLACK = Some opponent_king_square ->
    exists rest,
      evaluate_board_without_penalty WHITE b = Some rest /\
      evaluate_board WHITE b =
        Some (rest
              + pts 2 * indicator (lost_kingside_at WHITE b (home_square BLACK)
                                                    opponent_king_square)
              + pts 2 * indicator (lost_queenside_at WHITE b (home_square BLACK)
                                                     opponent_king_square)).
Proof.
  intros b my opp Hmy Hopp.
  destruct (evaluate_board_penalty WHITE b my opp Hmy Hopp) as [rest [Hrest Htotal]].
  exists rest. split; [ exact Hrest | ].
  rewrite Htotal, get_king_safety_penalty_value. cbn [home_square BLACK].
  f_equal. lia.
Qed.

(** Each occupied square adds to the two perspectives' sums twice the centre
    adjustment of the piece on it. *)
Lemma material_loop_sum (color : Color) (b : Board) (squares : list Square) :
  forall score score',
    fold_left
      (fun score square =>
         match piece_at b square with
         | Some piece =>
             if Bool.eqb (piece_color piece) color
             then score + get_piece_value color piece square
             else score - get_piece_value color piece square
         | None => score
         end) squares score
    + fold_left
        (fun score square =>
           match piece_at b square with
           | Some piece =>
               if Bool.eqb (piece_color piece) (negb color)
               then score + get_piece_value (negb color) piece square
               else score - get_piece_value (negb color) piece square
           | None => score
           end) squares score'
    = score + score'
      + 2 * half * Z.of_nat (length (filter (fun square =>
                                               match piece_at b square with
                                               | Some _ => in_center square
                                               | None => false
                                               end) squares)).
Proof.
  induction squares as [ | square rest IH ]; intros score score'; cbn [fold_left filter].
  - cbn. lia.
  - rewrite IH. unfold get_piece_value, half.
    destruct (piece_at b square) as [piece | ]; [ | lia ].
    destruct (piece_color piece), color, (in_center square);
      cbn [Bool.eqb negb length]; lia.
Qed.

(** From the two perspectives the material terms do not cancel: they add up
    to one point for every piece standing on a central square. *)
Lemma material_score_sum (b : Board) :
  material_score WHITE b + material_score BLACK b = pts 1 * central_pieces b.
Proof.
  unfold material_score, central_pieces.
  pose proof (material_loop_sum WHITE b SQUARES 0 0) as Hsum.
  change (negb WHITE) with BLACK in Hsum. rewrite Hsum. unfold pts, half. lia.
Qed.

End EvaluatorClaims.

(** *** On the positions *)

Lemma penalty_raises_evaluation_witness :
  exists rest,
    evaluate_board_without_penalty WHITE kings_only = Some rest /\
    evaluate_board WHITE kings_only =
      Some (rest
            + pts 2 * indicator (lost_kingside_at WHITE kings_only (home_square BLACK) E8)
            + pts 2 * indicator (lost_queenside_at WHITE kings_only (home_square BLACK) E8)).
Proof.
  apply (penalty_raises_evaluation kings_only E1 E8); reflexivity.
Defined.

(** C3, as stated, fails: with the two kings on their home squares and no
    castling rights, white's evaluation is 14, the other terms give 10, and
    the claim asks for 10 - 2 - 2 = 6. *)
Lemma penalty_does_not_lower_evaluation :
  evaluate_board_without_penalty WHITE kings_only = Some (pts 10) /\
  evaluate_board WHITE kings_only = Some (pts 14) /\
  ~ penalty_lowers_evaluation WHITE kings_only.
Proof.
  repeat split.
  intros Hclaim.
  destruct (Hclaim E1 E8 eq_refl eq_refl) as [rest [Hrest Htotal]].
  vm_compute in Hrest. injection Hrest as <-.
  vm_compute in Htotal. discriminate.
Qed.

(** C4, where the code departs from it.  Black still holds both castling
    rights and its king is on its home square e8; playing black, the bot
    gives itself no king-safety bonus (the claim: 4), and evaluates the
    position at 24 (with the bonus: 28).  Playing white in the mirrored
    position it does get the bonus 4. *)
Theorem black_king_at_home_gets_no_bonus :
  has_kingside_castling_rights black_can_castle BLACK = true /\
  has_queenside_castling_rights black_can_castle BLACK = true /\
  king black_can_castle BLACK = Some (home_square BLACK) /\
  get_king_safety_bonus BLACK black_can_castle (home_square BLACK) = 0 /\
  evaluate_board BLACK black_can_castle = Some (pts 24) /\
  get_king_safety_bonus WHITE white_can_castle (home_square WHITE) = pts 4 /\
  evaluate_board WHITE white_can_castle = Some (pts 32).
Proof. repeat split. Qed.

(** C9, where the code departs from it.  With a white pawn on e4 the
    material term is 1.5 from white's perspective and -0.5 from black's,
    not -1.5: the centre adjustment counts +0.5 for the pawn on both
    sides. *)
Theorem material_term_is_not_negated :
  material_score WHITE pawn_on_e4 = pts 1 + half /\
  material_score BLACK pawn_on_e4 = - half /\
  material_score WHITE pawn_on_e4 <> - material_score BLACK pawn_on_e4.
Proof. repeat split. vm_compute. discriminate. Qed.

(** ** Further properties of the evaluator *)

Section EvaluatorMore.
Context {Board : Type} {Q : BoardQueries Board}.

Lemma get_piece_value_points (color : Color) (piece : Piece) (square : Square) :
  get_piece_value color piece square
  = piece_points piece
    + (if in_center square
       then if Bool.eqb (piece_color piece) color then half else - half
       else 0).
Proof.
  unfold get_piece_value, piece_points, symbol_lower.
  destruct (piece_type piece), (Bool.eqb (piece_color piece) color), (in_center square);
    cbn; lia.
Qed.

Lemma material_loop_closed (color : Color) (b : Board) (squares : list Square) :
  forall score,
    fold_left
      (fun score square =>
         match piece_at b square with
         | Some piece =>
             if Bool.eqb (piece_color piece) color
             then score + get_piece_value color piece square
             else score - get_piece_value color piece square
         | None => score
         end) squares score
    = score
      + fold_right Z.add 0
          (map (fun square =>
                  match piece_at b square with
                  | Some piece =>
                      if Bool.eqb (piece_color piece) color
                      then piece_points piece else - piece_points piece
                  | None => 0
                  end) squares)
      + half * Z.of_nat (length (filter (fun square =>
                                           match piece_at b square with
                                           | Some _ => in_center square
                                           | None => false
                                           end) squares)).
Proof.
  induction squares as [ | square rest IH ]; intros score;
    cbn [fold_left map fold_right filter].
  - cbn. lia.
  - rewrite IH.
    destruct (piece_at b square) as [piece | ]; [ | lia ].
    rewrite get_piece_value_points.
    destruct (Bool.eqb (piece_color piece) color), (in_center square);
      cbn [length]; unfold half; lia.
Qed.

(** X1.  The first loop of [evaluate_board] computes the material balance
    (own points minus opponent points, with pawn 1, knight 3, bishop 3,
    rook 5, queen 9, king 100) plus one half for every piece standing on d4,
    e4, d5 or e5, the opponent's pieces like the bot's own. *)
Theorem material_score_closed_form :
  forall (color : Color) (b : Board),
    material_score color b = material_balance color b + half * central_pieces b.
Proof.
  intros color b. unfold material_score, material_balance, central_pieces.
  rewrite material_loop_closed. lia.
Qed.

(** X2.  The material terms of the two perspectives are opposite exactly
    when no piece stands on one of the four central squares. *)
Theorem material_opposite_iff_centre_empty :
  forall (b : Board),
    material_score WHITE b = - material_score BLACK b <-> central_pieces b = 0.
Proof.
  intros b. pose proof (material_score_sum b) as Hsum. unfold pts in Hsum. lia.
Qed.

(** X3.  [evaluate_board] never raises.  [get_checkmate_threat_bonus]
    raises exactly when the opponent has no king on the board, and
    [evaluate_board] calls it only when both kings are there; with a king
    missing, the evaluation is the material term alone. *)
Theorem evaluate_board_guards_missing_king :
  forall (color : Color) (b : Board),
    (get_checkmate_threat_bonus color b = None <-> king b (negb color) = None) /\
    (exists v, evaluate_board color b = Some v) /\
    (king b color = None \/ king b (negb color) = None ->
     evaluate_board color b = Some (material_score color b)).
Proof.
  intros color b. repeat split.
  - unfold get_checkmate_threat_bonus.
    destruct (king b (negb color)); [ discriminate | reflexivity ].
  - intros Hking. unfold get_checkmate_threat_bonus. rewrite Hking. reflexivity.
  - apply evaluate_board_returns.
  - unfold evaluate_board. intros [Hking | Hking]; rewrite Hking.
    + reflexivity.
    + destruct (king b color); reflexivity.
Qed.

(** X4.  A king attacks at least three squares wherever it stands, and then
    the bonus of 20 for an opponent king with at most two attacked squares
    is never given: [get_checkmate_threat_bonus] is 50 on a checkmate and 0
    otherwise. *)
Theorem escape_bonus_needs_two_squares :
  forall (color : Color) (b : Board) (opponent_king_square : Square),
    king b (negb color) = Some opponent_king_square ->
    (3 <= length (attacks b opponent_king_square))%nat ->
    get_checkmate_threat_bonus color b = Some (if is_checkmate b then pts 50 else 0).
Proof.
  intros color b opp Hking Hthree.
  unfold get_checkmate_threat_bonus. rewrite Hking.
  replace (length (attacks b opp) <=? 2)%nat with false
    by (symmetry; apply Nat.leb_gt; lia).
  destruct (is_checkmate b); reflexivity.
Qed.

Lemma unattacked_bonus_count (b : Board) (by_color : Color) (delta : Z)
    (squares : list Square) :
  forall bonus,
    unattacked_bonus b by_color delta squares bonus
    = bonus + delta * unattacked b by_color squares.
Proof.
  unfold unattacked_bonus, unattacked.
  induction squares as [ | square rest IH ]; intros bonus; cbn [fold_left filter].
  - cbn. lia.
  - rewrite IH.
    destruct (length (attackers b by_color square) =? 0)%nat; cbn [length]; lia.
Qed.

Lemma unattacked_bounds (b : Board) (by_color : Color) (squares : list Square) :
  0 <= unattacked b by_color squares <= Z.of_nat (length squares).
Proof.
  unfold unattacked.
  pose proof (filter_length_le
                (fun square => (length (attackers b by_color square) =? 0)%nat) squares).
  lia.
Qed.

Lemma get_protect_key_pieces_bonus_count (color : Color) (b : Board) :
  get_protect_key_pieces_bonus color b
  = pts 4 * unattacked b (negb color) (firstn 1 (pieces b QUEEN color))
    - pts 2 * unattacked b color (firstn 1 (pieces b QUEEN (negb color)))
    + pts 2 * unattacked b (negb color) (pieces b ROOK color)
    - pts 1 * unattacked b color (pieces b ROOK (negb color))
    + pts 1 * unattacked b (negb color) (pieces b KNIGHT color)
    + pts 1 * unattacked b (negb color) (pieces b BISHOP color).
Proof.
  unfold get_protect_key_pieces_bonus.
  rewrite !unattacked_bonus_count.
  assert (Hfirst : forall by_color squares delta,
             match squares with
             | square :: _ =>
                 if (length (attackers b by_color square) =? 0)%nat then delta else 0
             | [] => 0
             end = delta * unattacked b by_color (firstn 1 squares)).
  { intros by_color [ | square rest ] delta; unfold unattacked; cbn [firstn filter].
    - cbn. lia.
    - destruct (length (attackers b by_color square) =? 0)%nat; cbn [length]; lia. }
  pose proof (Hfirst (negb color) (pieces b QUEEN color) (pts 4)) as Hmine.
  pose proof (Hfirst color (pieces b QUEEN (negb color)) (pts 2)) as Htheirs.
  destruct (pieces b QUEEN color) as [ | mine rest ];
    destruct (pieces b QUEEN (negb color)) as [ | theirs rest' ];
    repeat match goal with
           | |- context [if ?c then _ else _] => destruct c
           end;
    lia.
Qed.

(** X5.  [get_protect_key_pieces_bonus] is 4 for the bot's queen if it is
    not attacked, minus 2 for the opponent's queen if it is not attacked
    (of several queens of a colour only the one on the lowest square
    counts), plus 2 for each of its rooks, 1 for each of its knights and
    bishops that is not attacked, minus 1 for each unattacked rook of the
    opponent.  So it lies between -2 minus the number of opponent rooks and
    4 plus twice the number of own rooks plus the number of own knights and
    bishops. *)
Theorem protect_bonus_counts_unattacked_pieces :
  forall (color : Color) (b : Board),
    get_protect_key_pieces_bonus color b
    = pts 4 * unattacked b (negb color) (firstn 1 (pieces b QUEEN color))
      - pts 2 * unattacked b color (firstn 1 (pieces b QUEEN (negb color)))
      + pts 2 * unattacked b (negb color) (pieces b ROOK color)
      - pts 1 * unattacked b color (pieces b ROOK (negb color))
      + pts 1 * unattacked b (negb color) (pieces b KNIGHT color)
      + pts 1 * unattacked b (negb color) (pieces b BISHOP color)
    /\ - pts 2 - pts 1 * Z.of_nat (length (pieces b ROOK (negb color)))
       <= get_protect_key_pieces_bonus color b
       <= pts 4 + pts 2 * Z.of_nat (length (pieces b ROOK color))
          + pts 1 * Z.of_nat (length (pieces b KNIGHT color))
          + pts 1 * Z.of_nat (length (pieces b BISHOP color)).
Proof.
  intros color b. split; [ apply get_protect_key_pieces_bonus_count | ].
  rewrite get_protect_key_pieces_bonus_count.
  pose proof (unattacked_bounds b (negb color) (firstn 1 (pieces b QUEEN color))) as Hq.
  pose proof (unattacked_bounds b color (firstn 1 (pieces b QUEEN (negb color)))) as Hq'.
  pose proof (firstn_le_length 1 (pieces b QUEEN color)) as Hl.
  pose proof (firstn_le_length 1 (pieces b QUEEN (negb color))) as Hl'.
  pose proof (unattacked_bounds b (negb color) (pieces b ROOK color)).
  pose proof (unattacked_bounds b color (pieces b ROOK (negb color))).
  pose proof (unattacked_bounds b (negb color) (pieces b KNIGHT color)).
  pose proof (unattacked_bounds b (negb color) (pieces b BISHOP color)).
  unfold pts. lia.
Qed.

Lemma get_attack_against_king_bonus_bounds (color : Color) (b : Board) :
  0 <= get_attack_against_king_bonus color b <= pts 15.
Proof.
  unfold get_attack_against_king_bonus, pts.
  destruct (is_king_exposed color b (king b (negb color)));
    destruct (king b (negb color)) as [square | ];
    try destruct (in_center square); lia.
Qed.

(** X6.  With both kings on the board the evaluation stays close to the
    material term: it is at least the material term minus 2 and minus the
    number of opponent rooks, and at most the material term plus 97, twice
    the number of own rooks and the number of own knights and bishops. *)
Theorem evaluate_board_bounds :
  forall (color : Color) (b : Board) (my_king_square opponent_king_square : Square),
    king b color = Some my_king_square ->
    king b (negb color) = Some opponent_king_square ->
    exists v,
      evaluate_board color b = Some v /\
      material_score color b - pts 2 - pts 1 * Z.of_nat (length (pieces b ROOK (negb color)))
      <= v
      <= material_score color b + pts 97
         + pts 2 * Z.of_nat (length (pieces b ROOK color))
         + pts 1 * Z.of_nat (length (pieces b KNIGHT color))
         + pts 1 * Z.of_nat (length (pieces b BISHOP color)).
Proof.
  intros color b my opp Hmy Hopp.
  unfold evaluate_board, get_checkmate_threat_bonus. rewrite Hmy, Hopp.
  eexists. split; [ reflexivity | ].
  rewrite get_king_safety_bonus_value, get_king_safety_penalty_value.
  pose proof (get_attack_against_king_bonus_bounds color b) as Hattack.
  pose proof (unattacked_bounds b (negb color) (firstn 1 (pieces b QUEEN color))) as Hq.
  pose proof (unattacked_bounds b color (firstn 1 (pieces b QUEEN (negb color)))) as Hq'.
  pose proof (firstn_le_length 1 (pieces b QUEEN color)) as Hl.
  pose proof (firstn_le_length 1 (pieces b QUEEN (negb color))) as Hl'.
  pose proof (unattacked_bounds b (negb color) (pieces b ROOK color)).
  pose proof (unattacked_bounds b color (pieces b ROOK (negb color))).
  pose proof (unattacked_bounds b (negb color) (pieces b KNIGHT color)).
  pose proof (unattacked_bounds b (negb color) (pieces b BISHOP color)).
  rewrite get_protect_key_pieces_bonus_count.
  unfold indicator, pts in *.
  repeat match goal with
         | |- context [if ?c then _ else _] => destruct c
         end; lia.
Qed.

End EvaluatorMore.

Lemma evaluate_board_guards_missing_king_witness :
  evaluate_board WHITE (pawns 4 4) = Some (material_score WHITE (pawns 4 4)).
Proof.
  apply (evaluate_board_guards_missing_king WHITE (pawns 4 4)).
  left. reflexivity.
Defined.

Lemma escape_bonus_needs_two_squares_witness :
  get_checkmate_threat_bonus WHITE back_rank_mate
  = Some (if is_checkmate back_rank_mate then pts 50 else 0).
Proof.
  apply (escape_bonus_needs_two_squares WHITE back_rank_mate 62%nat).
  - reflexivity.
  - cbn. lia.
Defined.

Lemma evaluate_board_bounds_witness :
  exists v,
    evaluate_board BLACK black_can_castle = Some v /\
    material_score BLACK black_can_castle - pts 2
    - pts 1 * Z.of_nat (length (pieces black_can_castle ROOK (negb BLACK)))
    <= v
    <= material_score BLACK black_can_castle + pts 97
       + pts 2 * Z.of_nat (length (pieces black_can_castle ROOK BLACK))
       + pts 1 * Z.of_nat (length (pieces black_can_castle KNIGHT BLACK))
       + pts 1 * Z.of_nat (length (pieces black_can_castle BISHOP BLACK)).
Proof.
  apply (evaluate_board_bounds BLACK black_can_castle E8 E1); reflexivity.
Defined.

(** ** Further properties of the search *)

Section SearchMore.
Context {Board Move : Type} {Q : BoardQueries Board} {G : MoveGen Board Move}.

(** *** No move without a reason *)

Lemma maximizing_loop_no_move (recurse : score -> Board -> option (@search_result Board Move)) :
  forall moves best_eval best_move alpha beta b v b',
    maximizing_loop recurse moves best_eval best_move alpha beta b = Some (v, None, b') ->
    best_move = None /\ v = best_eval.
Proof.
  induction moves as [ | move rest IH ]; intros best_eval best_move alpha beta b v b';
    cbn [maximizing_loop].
  - intros [= <- <- _]. split; reflexivity.
  - destruct (recurse alpha (push b move)) as [[[e mv] bd] | ]; [ | discriminate ].
    destruct (score_ltb best_eval e);
      match goal with |- context [if ?c then _ else _] => destruct c end;
      intros H;
      try (apply IH in H; destruct H as [H1 H2]);
      try discriminate;
      try (injection H as <- <- _);
      split; congruence.
Qed.

Lemma minimizing_loop_no_move (recurse : score -> Board -> option (@search_result Board Move)) :
  forall moves best_eval best_move alpha beta b v b',
    minimizing_loop recurse moves best_eval best_move alpha beta b = Some (v, None, b') ->
    best_move = None /\ v = best_eval.
Proof.
  induction moves as [ | move rest IH ]; intros best_eval best_move alpha beta b v b';
    cbn [minimizing_loop].
  - intros [= <- <- _]. split; reflexivity.
  - destruct (recurse beta (push b move)) as [[[e mv] bd] | ]; [ | discriminate ].
    destruct (score_ltb e best_eval);
      match goal with |- context [if ?c then _ else _] => destruct c end;
      intros H;
      try (apply IH in H; destruct H as [H1 H2]);
      try discriminate;
      try (injection H as <- <- _);
      split; congruence.
Qed.

Lemma minimax_no_move (fuel : nat) (color : Color) (depth : Z) (alpha beta : score)
    (maximizing_player : bool) (b : Board) (v : score) (b' : Board) :
  minimax fuel color depth alpha beta maximizing_player b = Some (v, None, b') ->
  ((depth =? 0) || is_game_over b = true /\
   exists z, v = Fin z /\ evaluate_board color b = Some z) \/
  ((depth =? 0) || is_game_over b = false /\
   v = if maximizing_player then NegInf else PosInf).
Proof.
  destruct fuel as [ | fuel ]; cbn [minimax]; [ discriminate | ].
  destruct ((depth =? 0) || is_game_over b).
  - destruct (evaluate_board color b) as [z | ]; [ | discriminate ].
    intros [= <- _]. left. split; [ reflexivity | ]. exists z. split; reflexivity.
  - intros Hloop. right. split; [ reflexivity | ].
    destruct maximizing_player.
    + apply maximizing_loop_no_move in Hloop as [_ ->]. reflexivity.
    + apply minimizing_loop_no_move in Hloop as [_ ->]. reflexivity.
Qed.

(** X7.  [minimax] returns no move in two cases only: in the base case
    (depth 0 or game over), with the evaluation of the position, and when no
    reply improved on the seed, with the seed as score (minus infinity when
    maximizing, plus infinity when minimizing).  So, when [pop] undoes
    [push] and the search meets no dead end, a position that is not game
    over, searched at a depth other than 0, always gets a move. *)
Theorem move_returned_unless_base_case :
  forall (fuel : nat) (color : Color) (depth : Z) (alpha beta : score)
         (maximizing_player : bool) (b : Board) (v : score) (move : option Move)
         (b' : Board),
    minimax fuel color depth alpha beta maximizing_player b = Some (v, move, b') ->
    (move = None ->
     ((depth =? 0) || is_game_over b = true /\
      exists z, v = Fin z /\ evaluate_board color b = Some z) \/
     ((depth =? 0) || is_game_over b = false /\
      v = if maximizing_player then NegInf else PosInf)) /\
    ((forall (b : Board) (move : Move), pop (push b move) = b) ->
     no_dead_end fuel depth b = true ->
     (depth =? 0) || is_game_over b = false ->
     exists m, move = Some m).
Proof.
  intros fuel color depth alpha beta mx b v move b' Hrun. split.
  - intros ->. eapply minimax_no_move. exact Hrun.
  - intros pop_push Hfree Hlive.
    destruct move as [m | ]; [ exists m; reflexivity | exfalso ].
    pose proof (minimax_finite pop_push _ _ _ _ _ _ _ _ Hfree Hrun) as Hfinite.
    apply minimax_no_move in Hrun as [[Hbase _] | [_ ->]]; [ congruence | ].
    destruct mx; discriminate.
Qed.

(** *** The line behind the score *)

Section Line.
Hypothesis pop_push : forall (b : Board) (move : Move), pop (push b move) = b.
Variable color : Color.
Variable recurse : score -> Board -> option (@search_result Board Move).
Variable bound : Z.
Variable b : Board.
Hypothesis recurse_restores : forall a bd r, recurse a bd = Some r -> snd r = bd.
Hypothesis recurse_line :
  forall a bd z mv bd',
    recurse a bd = Some (Fin z, mv, bd') ->
    exists line,
      legal_line bd line /\ evaluate_board color (play bd line) = Some z /\
      hd_error line = mv /\ (0 <= bound -> Z.of_nat (length line) <= bound).

Lemma maximizing_loop_line :
  forall moves best_eval best_move alpha beta v mv b',
    (forall move, In move moves -> In move (legal_moves b)) ->
    line_found color bound b best_eval best_move ->
    maximizing_loop recurse moves best_eval best_move alpha beta b = Some (v, mv, b') ->
    line_found color bound b v mv.
Proof.
  induction moves as [ | move rest IH ]; intros best_eval best_move alpha beta v mv b' Hin Hinv;
    cbn [maximizing_loop].
  - intros [= <- <- _]. exact Hinv.
  - destruct (recurse alpha (push b move)) as [[[e mv0] bd] | ] eqn:Hcall; [ | discriminate ].
    pose proof (recurse_restores _ _ _ Hcall) as Hbd. cbn in Hbd. subst bd.
    rewrite pop_push.
    assert (Hnew : line_found color bound b e (Some move)).
    { intros z ->. destruct (recurse_line _ _ _ _ _ Hcall) as [line [Hl [He [_ Hlen]]]].
      exists move, line. repeat split; try assumption. apply Hin. left. reflexivity. }
    assert (Hrest : forall move, In move rest -> In move (legal_moves b))
      by (intros; apply Hin; right; assumption).
    destruct (score_ltb best_eval e);
      match goal with |- context [if ?c then _ else _] => destruct c end;
      intros H;
      try (injection H as <- <- _; assumption);
      eapply IH in H; eassumption.
Qed.

Lemma minimizing_loop_line :
  forall moves best_eval best_move alpha beta v mv b',
    (forall move, In move moves -> In move (legal_moves b)) ->
    line_found color bound b best_eval best_move ->
    minimizing_loop recurse moves best_eval best_move alpha beta b = Some (v, mv, b') ->
    line_found color bound b v mv.
Proof.
  induction moves as [ | move rest IH ]; intros best_eval best_move alpha beta v mv b' Hin Hinv;
    cbn [minimizing_loop].
  - intros [= <- <- _]. exact Hinv.
  - destruct (recurse beta (push b move)) as [[[e mv0] bd] | ] eqn:Hcall; [ | discriminate ].
    pose proof (recurse_restores _ _ _ Hcall) as Hbd. cbn in Hbd. subst bd.
    rewrite pop_push.
    assert (Hnew : line_found color bound b e (Some move)).
    { intros z ->. destruct (recurse_line _ _ _ _ _ Hcall) as [line [Hl [He [_ Hlen]]]].
      exists move, line. repeat split; try assumption. apply Hin. left. reflexivity. }
    assert (Hrest : forall move, In move rest -> In move (legal_moves b))
      by (intros; apply Hin; right; assumption).
    destruct (score_ltb e best_eval);
      match goal with |- context [if ?c then _ else _] => destruct c end;
      intros H;
      try (injection H as <- <- _; assumption);
      eapply IH in H; eassumption.
Qed.

End Line.

(** X8.  A finite score returned by [minimax] is never made up: when [pop]
    undoes [push], there is a line of legal moves from the position, which
    starts with the move returned (and is empty when no move is returned),
    is not longer than the depth when the depth is not negative, and leads
    to a position whose evaluation is the score. *)
Theorem score_is_evaluation_of_legal_line :
  (forall (b : Board) (move : Move), pop (push b move) = b) ->
  forall (fuel : nat) (color : Color) (depth : Z) (alpha beta : score)
         (maximizing_player : bool) (b : Board) (z : Z) (move : option Move)
         (b' : Board),
    minimax fuel color depth alpha beta maximizing_player b = Some (Fin z, move, b') ->
    exists line,
      legal_line b line /\ evaluate_board color (play b line) = Some z /\
      hd_error line = move /\ (0 <= depth -> Z.of_nat (length line) <= depth).
Proof.
  intros pop_push fuel.
  induction fuel as [ | fuel IH ]; intros color depth alpha beta mx b z mv b';
    cbn [minimax]; [ discriminate | ].
  destruct ((depth =? 0) || is_game_over b) eqn:Hbase.
  - destruct (evaluate_board color b) as [z' | ] eqn:Heval; [ | discriminate ].
    intros [= <- <- _]. exists []. cbn. repeat split; try assumption; lia.
  - apply orb_false_iff in Hbase as [Hz _]. apply Z.eqb_neq in Hz.
    intros Hloop.
    assert (Hfound :
              forall z0, Fin z = Fin z0 ->
                exists move line,
                  mv = Some move /\ In move (legal_moves b) /\
                  legal_line (push b move) line /\
                  evaluate_board color (play (push b move) line) = Some z0 /\
                  (0 <= depth - 1 -> Z.of_nat (length line) <= depth - 1)).
    { destruct mx.
      - eapply (maximizing_loop_line pop_push color
                  (fun a bd => minimax fuel color (depth - 1) a beta false bd)
                  (depth - 1) b); [ | | | | exact Hloop ].
        + intros a bd r. apply minimax_restores, pop_push.
        + intros a bd z0 mv0 bd'. apply IH.
        + auto.
        + intros z0 [=].
      - eapply (minimizing_loop_line pop_push color
                  (fun bt bd => minimax fuel color (depth - 1) alpha bt true bd)
                  (depth - 1) b); [ | | | | exact Hloop ].
        + intros a bd r. apply minimax_restores, pop_push.
        + intros a bd z0 mv0 bd'. apply IH.
        + auto.
        + intros z0 [=]. }
    destruct (Hfound z eq_refl) as [move [line [-> [Hin [Hline [Heval Hlen]]]]]].
    exists (move :: line). cbn [legal_line play fold_left hd_error length].
    repeat split; try assumption. intros Hd. lia.
Qed.

End SearchMore.

(** *** The window, and the move at the root *)

Section Root.
Context {Board Move : Type} {Q : BoardQueries Board} {G : MoveGen Board Move}.
Hypothesis pop_push : forall (b : Board) (move : Move), pop (push b move) = b.

(** X9.  The guarantee of the pruned search for any window with alpha below
    beta, at any node: a score at or below alpha is an upper bound of the
    plain minimax value, a score at or above beta is a lower bound of it,
    and a score strictly between the two is the value itself. *)
Theorem alpha_beta_window :
  forall (fuel : nat) (color : Color) (depth : Z) (alpha beta : score)
         (maximizing_player : bool) (b : Board),
    0 <= depth -> (Z.to_nat depth < fuel)%nat ->
    score_ltb alpha beta = true ->
    exists (v : score) (move : option Move) (m : score),
      minimax fuel color depth alpha beta maximizing_player b = Some (v, move, b) /\
      full_minimax fuel color depth maximizing_player b = Some m /\
      (score_leb v alpha = true -> score_leb m v = true) /\
      (score_leb beta v = true -> score_leb v m = true) /\
      (score_ltb alpha v = true -> score_ltb v beta = true -> v = m).
Proof.
  intros fuel color depth alpha beta mx b Hd Hf Hwin.
  destruct (minimax_returns fuel color depth alpha beta mx b Hd Hf) as [[[v mv] b'] Hrun].
  destruct (full_minimax_returns fuel color depth mx b Hd Hf) as [m Hfull].
  pose proof (minimax_restores pop_push _ _ _ _ _ _ _ _ Hrun) as Hb. cbn in Hb. subst b'.
  pose proof (minimax_within pop_push fuel _ _ _ _ _ _ _ _ _ _ Hwin Hrun Hfull) as Hw.
  exists v, mv, m. split; [ exact Hrun | split; [ exact Hfull | ] ].
  clear Hrun Hfull. score_cases.
Qed.

Section FirstBest.
Variable recurse : score -> Board -> option (@search_result Board Move).
Variable value : Board -> option score.
Variable b : Board.
Hypothesis recurse_restores : forall a bd r, recurse a bd = Some r -> snd r = bd.
Hypothesis recurse_within :
  forall a bd e mv bd' x,
    score_ltb a PosInf = true ->
    recurse a bd = Some (e, mv, bd') -> value bd = Some x -> within a PosInf e x.

Lemma maximizing_loop_first_best :
  forall moves tried best_eval best_move v mv b',
    score_ltb best_eval PosInf = true ->
    (forall move, In move moves -> exists x, value (push b move) = Some x) ->
    first_best value b tried best_eval best_move ->
    maximizing_loop recurse moves best_eval best_move best_eval PosInf b
    = Some (v, mv, b') ->
    exists tried' rest, tried ++ moves = tried' ++ rest /\ first_best value b tried' v mv.
Proof.
  induction moves as [ | move rest IH ]; intros tried best_eval best_move v mv b' Hopen Hval Hinv;
    cbn [maximizing_loop].
  - intros [= <- <- _]. exists tried, []. split; [ reflexivity | exact Hinv ].
  - destruct (recurse best_eval (push b move)) as [[[e mv0] bd] | ] eqn:Hcall; [ | discriminate ].
    pose proof (recurse_restores _ _ _ Hcall) as Hbd. cbn in Hbd. subst bd.
    rewrite pop_push.
    destruct (Hval move (or_introl eq_refl)) as [x Hx].
    pose proof (recurse_within _ _ _ _ _ _ Hopen Hcall Hx) as Hw.
    assert (Hrest : forall move, In move rest -> exists x, value (push b move) = Some x)
      by (intros; apply Hval; right; assumption).
    destruct Hinv as [Hle Hbest].
    destruct (score_ltb best_eval e) eqn:Hlt.
    + (* the move improves on the best score: it is the new best move *)
      assert (Hxe : x = e) by (clear - Hw Hlt Hopen; score_cases).
      subst x.
      assert (Hnew : first_best value b (tried ++ [move]) e (Some move)).
      { split.
        - intros m' Hin. apply in_app_iff in Hin as [Hin | [<- | []]].
          + destruct (Hle m' Hin) as [y [Hy Hyb]]. exists y. split; [ exact Hy | ].
            clear - Hyb Hlt. score_cases.
          + exists e. split; [ exact Hx | apply score_leb_refl ].
        - exists tried, []. repeat split; [ exact Hx | ].
          intros m' Hin. destruct (Hle m' Hin) as [y [Hy Hyb]]. exists y.
          split; [ exact Hy | ]. clear - Hyb Hlt. score_cases. }
      replace (score_max best_eval e) with e by (clear - Hlt; score_cases).
      destruct (score_leb PosInf e) eqn:Hcut.
      * intros [= <- <- _]. exists (tried ++ [move]), rest.
        split; [ rewrite <- app_assoc; reflexivity | exact Hnew ].
      * intros Hloop. eapply IH in Hloop; [ | | exact Hrest | exact Hnew ].
        -- destruct Hloop as [tried' [rest' [Heq Hfb]]]. exists tried', rest'.
           split; [ rewrite <- Heq, <- app_assoc; reflexivity | exact Hfb ].
        -- clear - Hcut. score_cases.
    + (* the move does not improve: best score and best move are kept *)
      assert (Hxb : score_leb x best_eval = true) by (clear - Hw Hlt Hopen; score_cases).
      assert (Hnew : first_best value b (tried ++ [move]) best_eval best_move).
      { split.
        - intros m' Hin. apply in_app_iff in Hin as [Hin | [<- | []]].
          + apply Hle, Hin.
          + exists x. split; assumption.
        - destruct best_move as [m | ]; [ | exact Hbest ].
          destruct Hbest as [p1 [p2 [Hsplit [Hm Hbefore]]]].
          exists p1, (p2 ++ [move]). repeat split; try assumption.
          rewrite Hsplit, <- app_assoc. reflexivity. }
      replace (score_max best_eval best_eval) with best_eval
        by (clear; destruct best_eval; score_cases).
      replace (score_leb PosInf best_eval) with false
        by (clear - Hopen; score_cases).
      intros Hloop. eapply IH in Hloop; [ | exact Hopen | exact Hrest | exact Hnew ].
      destruct Hloop as [tried' [rest' [Heq Hfb]]]. exists tried', rest'.
      split; [ rewrite <- Heq, <- app_assoc; reflexivity | exact Hfb ].
Qed.

End FirstBest.

(** X10.  Called as [get_best_move] and [next_move] call it (full window,
    maximizing) on a position that is not game over, at a positive depth,
    [minimax] returns the first legal move, in the order of the legal-move
    list, whose plain minimax value is the score returned: every move
    before it has a strictly smaller value.  It returns no move only with
    the score minus infinity; and [next_move] hands out that move as a
    string. *)
Theorem root_move_is_first_best :
  forall (fuel : nat) (color : Color) (depth : Z) (b : Board)
         (v : score) (move : option Move) (b' : Board),
    0 < depth -> (Z.to_nat depth <= fuel)%nat -> is_game_over b = false ->
    minimax (S fuel) color depth NegInf PosInf true b = Some (v, move, b') ->
    match move with
    | Some m =>
        exists before after,
          legal_moves b = before ++ m :: after /\
          full_minimax fuel color (depth - 1) false (push b m) = Some v /\
          forall m', In m' before ->
            exists v', full_minimax fuel color (depth - 1) false (push b m') = Some v' /\
                       score_ltb v' v = true
    | None => v = NegInf
    end /\
    next_move (S fuel) color depth b = Some (PyStr (str move), b').
Proof.
  intros fuel color depth b v move b' Hd Hf Hlive Hrun.
  split; [ | unfold next_move; rewrite Hrun; reflexivity ].
  cbn [minimax] in Hrun. rewrite Hlive in Hrun.
  replace (depth =? 0) with false in Hrun by lia. cbn [orb] in Hrun.
  eapply (maximizing_loop_first_best
            (fun a bd => minimax fuel color (depth - 1) a PosInf false bd)
            (full_minimax fuel color (depth - 1) false) b) with (tried := []) in Hrun.
  - destruct Hrun as [tried' [rest [Heq [_ Hbest]]]]. cbn [app] in Heq.
    destruct move as [m | ]; [ | exact Hbest ].
    destruct Hbest as [p1 [p2 [Hsplit [Hm Hbefore]]]].
    exists p1, (p2 ++ rest). repeat split; try assumption.
    rewrite Heq, Hsplit, <- app_assoc. reflexivity.
  - intros a bd r. apply minimax_restores, pop_push.
  - intros a bd e mv bd' x Ha. apply (minimax_within pop_push), Ha.
  - reflexivity.
  - intros m _. apply full_minimax_returns; lia.
  - split; [ intros m' [] | reflexivity ].
Qed.

End Root.

(** *** On the game trees and positions *)

Lemma material_opposite_iff_centre_empty_witness :
  material_score WHITE kings_only = - material_score BLACK kings_only.
Proof.
  apply (material_opposite_iff_centre_empty kings_only). reflexivity.
Defined.

Lemma move_returned_unless_base_case_witness :
  ((1 =? 0) || is_game_over (start_at dead_end) = true /\
   (exists z, NegInf = Fin z /\ evaluate_board WHITE (start_at dead_end) = Some z) \/
   (1 =? 0) || is_game_over (start_at dead_end) = false /\ NegInf = NegInf) /\
  (exists m, Some 0%nat = Some m).
Proof.
  split.
  - apply (move_returned_unless_base_case 1 WHITE 1 NegInf PosInf true (start_at dead_end)
             NegInf None (start_at dead_end)); reflexivity.
  - apply (move_returned_unless_base_case 3 WHITE 2 NegInf PosInf true (start_at two_plies)
             (Fin (pts 3)) (Some 0%nat) (start_at two_plies)).
    + vm_compute. reflexivity.
    + exact tree_pop_push.
    + reflexivity.
    + reflexivity.
Defined.

Lemma score_is_evaluation_of_legal_line_witness :
  exists line,
    legal_line (start_at two_plies) line /\
    evaluate_board WHITE (play (start_at two_plies) line) = Some (pts 3) /\
    hd_error line = Some 0%nat /\ (0 <= 2 -> Z.of_nat (length line) <= 2).
Proof.
  apply (score_is_evaluation_of_legal_line tree_pop_push 3 WHITE 2 NegInf PosInf true
           (start_at two_plies) (pts 3) (Some 0%nat) (start_at two_plies)).
  vm_compute. reflexivity.
Defined.

Lemma alpha_beta_window_witness :
  exists v move m,
    minimax 3 WHITE 2 (Fin (pts 4)) (Fin (pts 5)) true (start_at two_plies)
    = Some (v, move, start_at two_plies) /\
    full_minimax 3 WHITE 2 true (start_at two_plies) = Some m /\
    (score_leb v (Fin (pts 4)) = true -> score_leb m v = true) /\
    (score_leb (Fin (pts 5)) v = true -> score_leb v m = true) /\
    (score_ltb (Fin (pts 4)) v = true -> score_ltb v (Fin (pts 5)) = true -> v = m).
Proof.
  apply (alpha_beta_window tree_pop_push 3 WHITE 2 (Fin (pts 4)) (Fin (pts 5)) true
           (start_at two_plies)).
  - lia.
  - cbn; lia.
  - reflexivity.
Defined.

Lemma root_move_is_first_best_witness :
  (exists before after,
      legal_moves (start_at tied_moves) = before ++ 1%nat :: after /\
      full_minimax 1 WHITE (1 - 1) false (push (start_at tied_moves) 1%nat)
      = Some (Fin (pts 2)) /\
      forall m', In m' before ->
        exists v', full_minimax 1 WHITE (1 - 1) false (push (start_at tied_moves) m')
                   = Some v' /\
                   score_ltb v' (Fin (pts 2)) = true) /\
  next_move 2 WHITE 1 (start_at tied_moves)
  = Some (PyStr (str (Some 1%nat)), start_at tied_moves).
Proof.
  apply (root_move_is_first_best tree_pop_push 1 WHITE 1 (start_at tied_moves)
           (Fin (pts 2)) (Some 1%nat) (start_at tied_moves)).
  - lia.
  - cbn; lia.
  - reflexivity.
  - vm_compute. reflexivity.
Defined.
